(** * The resilient upstream-fetch subsystem of nfl-games

    A shallow embedding of the token-bucket rate limiter, the circuit
    breaker, the provider's [executeRequest], the in-memory TTL cache, the
    in-memory event bus and the scoreboard, schedule, live-games and
    game-details use cases, together with the value objects and the ESPN
    status transformer they rest on, with the properties the specification
    states about them and further properties read off the code.

    Conventions of the embedding.
    - A JavaScript [number] that counts or is a millisecond timestamp is a
      [Z]; a [number] that may be fractional (tokens, rates, TTLs in
      seconds, percentages) is an exact rational [Q].  Rounding of IEEE
      doubles is not modelled.  Where what a method does with NaN or an
      infinity is at stake (the breaker's configuration, the game clock), a
      [number] is a [JsNumber.t].
    - Every call of [Date.now()] / [new Date()] in a method is an argument
      of the embedded method (named [now], [now'], ...), in program order.
    - A mutable object is a record passed in and returned.
    - [throw] / [try ... catch] are the [throw] / [try_catch] of the small
      state-and-exception monad [Eff] below; state changes made before a
      [throw] persist, as mutations do in JavaScript. *)

From Stdlib Require Import ZArith QArith Qminmax Qround Lqa Lia List Bool.
From Stdlib Require Import Sorting.Sorted Sorting.Permutation.
From stdpp Require Import base option list gmap strings pretty sorting.
Import ListNotations.

Local Open Scope Z_scope.

(** ** Comparisons of rationals as booleans *)

Definition Qleb (x y : Q) : bool := Qle_bool x y.
Definition Qltb (x y : Q) : bool := negb (Qle_bool y x).

(** ** State with exceptions

    [Eff.t S E A] is an (async) computation over a mutable state [S] that
    returns an [A], throws an [E], or is still awaiting. *)

Module Eff.

(** [Pending]: the promise has not settled within the clock readings the
    model was given (an [await] that is still waiting). *)
Inductive result (E A : Type) : Type :=
| Returned (a : A)
| Thrown (e : E)
| Pending.
Arguments Returned {E A} a.
Arguments Thrown {E A} e.
Arguments Pending {E A}.

Definition t (S E A : Type) : Type := S -> result E A * S.

Definition ret {S E A} (a : A) : t S E A := fun s => (Returned a, s).

Definition bind {S E A B} (m : t S E A) (k : A -> t S E B) : t S E B :=
  fun s =>
    match m s with
    | (Returned a, s') => k a s'
    | (Thrown e, s') => (Thrown e, s')
    | (Pending, s') => (Pending, s')
    end.

Definition throw {S E A} (e : E) : t S E A := fun s => (Thrown e, s).

(** [try { m } catch (e) { h e }]; the handler may throw another kind of
    exception. *)
Definition try_catch {S E E' A} (m : t S E A) (h : E -> t S E' A) : t S E' A :=
  fun s =>
    match m s with
    | (Returned a, s') => (Returned a, s')
    | (Thrown e, s') => h e s'
    | (Pending, s') => (Pending, s')
    end.

Definition get {S E} : t S E S := fun s => (Returned s, s).
Definition modify {S E} (f : S -> S) : t S E unit := fun s => (Returned tt, f s).

(** A state-only method [S -> A * S] run as a computation. *)
Definition lift {S E A} (f : S -> A * S) : t S E A :=
  fun s => let '(a, s') := f s in (Returned a, s').

End Eff.

Declare Scope eff_scope.
Delimit Scope eff_scope with eff.
Notation "x <- m ;; k" := (Eff.bind m (fun x => k))
  (at level 100, m at next level, right associativity) : eff_scope.
Notation "m ;;; k" := (Eff.bind m (fun _ => k))
  (at level 100, right associativity) : eff_scope.

(** ** Token-bucket rate limiter (rate-limiter.ts) *)

Module RateLimiter.

Record RateLimiterConfig : Type := {
  maxRequests : Q;   (* maximum requests per window *)
  windowMs : Q       (* window duration in milliseconds *)
}.

Record t : Type := {
  tokens : Q;
  lastRefill : Z;
  maxTokens : Q;
  refillRate : Q     (* tokens per millisecond *)
}.

(** [constructor(config)]; [now] is the reading stored in [lastRefill]. *)
Definition new (config : RateLimiterConfig) (now : Z) : t :=
  {| maxTokens := maxRequests config;
     tokens := maxRequests config;
     lastRefill := now;
     refillRate := (maxRequests config / windowMs config)%Q |}.

(** [refill()] *)
Definition refill (now : Z) (rl : t) : t :=
  let timePassed := now - lastRefill rl in
  let tokensToAdd := (inject_Z timePassed * refillRate rl)%Q in
  {| tokens := Qmin (maxTokens rl) (tokens rl + tokensToAdd);
     lastRefill := now;
     maxTokens := maxTokens rl;
     refillRate := refillRate rl |}.

(** [tryAcquire()] *)
Definition tryAcquire (now : Z) (rl : t) : bool * t :=
  let rl := refill now rl in
  if Qleb 1 (tokens rl) then
    (true, {| tokens := (tokens rl - 1)%Q;
              lastRefill := lastRefill rl;
              maxTokens := maxTokens rl;
              refillRate := refillRate rl |})
  else (false, rl).

(** How a call of [acquire] stands after the clock readings it was given:
    it returned, it threw the timeout error, or it is still polling. *)
Inductive AcquireOutcome : Type :=
| Acquired
| TimedOut
| Polling.

(** The [while (true)] loop of [acquire(timeoutMs)].  Each round reads the
    clock in [tryAcquire] and, when no token was available, once more for
    [elapsed]; [rounds] lists these pairs of readings, one pair per round
    (the second reading of a round that acquires is not taken).  The
    [sleep] between rounds changes nothing but the clock. *)
Fixpoint acquire_loop (timeoutMs : Q) (startTime : Z) (rounds : list (Z * Z))
    (rl : t) : AcquireOutcome * t :=
  match rounds with
  | [] => (Polling, rl)
  | (now, now') :: rounds' =>
      let '(ok, rl') := tryAcquire now rl in
      if ok then (Acquired, rl')
      else
        let elapsed := now' - startTime in
        if Qleb timeoutMs (inject_Z elapsed) then (TimedOut, rl')
        else acquire_loop timeoutMs startTime rounds' rl'
  end.

(** [acquire(timeoutMs = 5000)] *)
Definition acquire (timeoutMs : option Q) (startTime : Z) (rounds : list (Z * Z))
    (rl : t) : AcquireOutcome * t :=
  acquire_loop (default 5000%Q timeoutMs) startTime rounds rl.

(** [getAvailableTokens()] *)
Definition getAvailableTokens (now : Z) (rl : t) : Z * t :=
  let rl := refill now rl in
  (Qfloor (tokens rl), rl).

(** [reset()] *)
Definition reset (now : Z) (rl : t) : t :=
  {| tokens := maxTokens rl;
     lastRefill := now;
     maxTokens := maxTokens rl;
     refillRate := refillRate rl |}.

(** The public operations, with the clock readings each one takes. *)
Inductive Op : Type :=
| OpTryAcquire (now : Z)
| OpAcquire (timeoutMs : option Q) (startTime : Z) (rounds : list (Z * Z))
| OpGetAvailableTokens (now : Z)
| OpReset (now : Z).

Definition step (op : Op) (rl : t) : t :=
  match op with
  | OpTryAcquire now => snd (tryAcquire now rl)
  | OpAcquire timeoutMs startTime rounds => snd (acquire timeoutMs startTime rounds rl)
  | OpGetAvailableTokens now => snd (getAvailableTokens now rl)
  | OpReset now => reset now rl
  end.


(** The clock readings of an operation, in program order. *)
Definition readings (op : Op) : list Z :=
  match op with
  | OpTryAcquire now => [now]
  | OpAcquire _ startTime rounds =>
      startTime :: flat_map (fun r => [fst r; snd r]) rounds
  | OpGetAvailableTokens now => [now]
  | OpReset now => [now]
  end.

(** A monotone clock: the readings of the whole run, from the one the
    constructor took, never decrease. *)
Fixpoint nondecreasing (t0 : Z) (ts : list Z) : Prop :=
  match ts with
  | [] => True
  | t1 :: ts' => t0 <= t1 /\ nondecreasing t1 ts'
  end.

Definition monotone_clock (t0 : Z) (ops : list Op) : Prop :=
  nondecreasing t0 (flat_map readings ops).

(** The token-bucket bound. *)
Definition bounded (rl : t) : Prop :=
  (0 <= tokens rl)%Q /\ (tokens rl <= maxTokens rl)%Q.

End RateLimiter.

(** ** Circuit breaker (circuit-breaker.ts) *)

Module CircuitBreaker.

Inductive CircuitState : Type :=
| CLOSED       (* normal operation *)
| OPEN         (* failing, rejecting requests *)
| HALF_OPEN.   (* testing if the service recovered *)

Record CircuitBreakerConfig : Type := {
  failureThreshold : Q;          (* percentage (0-100) to open the circuit *)
  minimumRequests : Z;
  resetTimeout : Z;              (* milliseconds *)
  successThreshold : option Z
}.

Record t : Type := {
  config : CircuitBreakerConfig;
  state : CircuitState;
  failureCount : Z;
  successCount : Z;
  requestCount : Z;
  lastFailureTime : Z;
  nextAttemptTime : Z
}.

(** [constructor(config)]: throws on a threshold outside 0..100. *)
Definition new (cfg : CircuitBreakerConfig) : option t :=
  if Qltb (failureThreshold cfg) 0 || Qltb 100 (failureThreshold cfg) then None
  else Some {| config := cfg; state := CLOSED;
               failureCount := 0; successCount := 0; requestCount := 0;
               lastFailureTime := 0; nextAttemptTime := 0 |}.

(** [transitionToOpen()] *)
Definition transitionToOpen (now : Z) (cb : t) : t :=
  {| config := config cb; state := OPEN;
     failureCount := failureCount cb; successCount := successCount cb;
     requestCount := requestCount cb; lastFailureTime := lastFailureTime cb;
     nextAttemptTime := now + resetTimeout (config cb) |}.

(** [transitionToHalfOpen()] *)
Definition transitionToHalfOpen (cb : t) : t :=
  {| config := config cb; state := HALF_OPEN;
     failureCount := failureCount cb; successCount := 0;
     requestCount := requestCount cb; lastFailureTime := lastFailureTime cb;
     nextAttemptTime := nextAttemptTime cb |}.

(** [transitionToClosed()] *)
Definition transitionToClosed (cb : t) : t :=
  {| config := config cb; state := CLOSED;
     failureCount := 0; successCount := 0; requestCount := 0;
     lastFailureTime := lastFailureTime cb;
     nextAttemptTime := nextAttemptTime cb |}.

(** [allowRequest()]; [now] is read only in [OPEN]. *)
Definition allowRequest (now : Z) (cb : t) : bool * t :=
  match state cb with
  | CLOSED => (true, cb)
  | OPEN =>
      if nextAttemptTime cb <=? now then (true, transitionToHalfOpen cb)
      else (false, cb)
  | HALF_OPEN => (true, cb)
  end.

(** [this.config.successThreshold || 1] *)
Definition successThreshold_or_1 (cfg : CircuitBreakerConfig) : Z :=
  match successThreshold cfg with
  | Some n => if n =? 0 then 1 else n
  | None => 1
  end.

(** [recordSuccess()] *)
Definition recordSuccess (cb : t) : t :=
  let cb := {| config := config cb; state := state cb;
               failureCount := failureCount cb; successCount := successCount cb;
               requestCount := requestCount cb + 1;
               lastFailureTime := lastFailureTime cb;
               nextAttemptTime := nextAttemptTime cb |} in
  match state cb with
  | HALF_OPEN =>
      let cb := {| config := config cb; state := state cb;
                   failureCount := failureCount cb;
                   successCount := successCount cb + 1;
                   requestCount := requestCount cb;
                   lastFailureTime := lastFailureTime cb;
                   nextAttemptTime := nextAttemptTime cb |} in
      if successThreshold_or_1 (config cb) <=? successCount cb
      then transitionToClosed cb else cb
  | _ =>
      {| config := config cb; state := state cb;
         failureCount := 0; successCount := successCount cb;
         requestCount := requestCount cb;
         lastFailureTime := lastFailureTime cb;
         nextAttemptTime := nextAttemptTime cb |}
  end.

(** [(this.failureCount / this.requestCount) * 100] *)
Definition failureRate (cb : t) : Q :=
  (inject_Z (failureCount cb) / inject_Z (requestCount cb) * 100)%Q.

(** [recordFailure()]; [now] is stored in [lastFailureTime], [now'] is the
    reading [transitionToOpen] takes when the circuit opens. *)
Definition recordFailure (now now' : Z) (cb : t) : t :=
  let cb := {| config := config cb; state := state cb;
               failureCount := failureCount cb + 1;
               successCount := successCount cb;
               requestCount := requestCount cb + 1;
               lastFailureTime := now;
               nextAttemptTime := nextAttemptTime cb |} in
  match state cb with
  | HALF_OPEN => transitionToOpen now' cb
  | _ =>
      if minimumRequests (config cb) <=? requestCount cb then
        if Qleb (failureThreshold (config cb)) (failureRate cb)
        then transitionToOpen now' cb else cb
      else cb
  end.

Definition getState (cb : t) : CircuitState := state cb.

(** [reset()] *)
Definition reset (cb : t) : t := transitionToClosed cb.

(** [forceState(state)] *)
Definition forceState (st : CircuitState) (cb : t) : t :=
  {| config := config cb; state := st;
     failureCount := failureCount cb; successCount := successCount cb;
     requestCount := requestCount cb; lastFailureTime := lastFailureTime cb;
     nextAttemptTime := nextAttemptTime cb |}.

(** A recorded request: its outcome and the clock readings
    [recordFailure] takes. *)
Inductive Record_ : Type :=
| Success
| Failure (now now' : Z).

Definition record (r : Record_) (cb : t) : t :=
  match r with
  | Success => recordSuccess cb
  | Failure now now' => recordFailure now now' cb
  end.

Definition recordAll (rs : list Record_) (cb : t) : t :=
  fold_left (fun cb r => record r cb) rs cb.

Definition isFailure (r : Record_) : bool :=
  match r with Success => false | Failure _ _ => true end.

(** Successive [allowRequest()] calls at the readings [nows]: the answers
    and the breaker after the last one. *)
Fixpoint allowRequests (nows : list Z) (cb : t) : list bool * t :=
  match nows with
  | [] => ([], cb)
  | now :: nows' =>
      let '(b, cb') := allowRequest now cb in
      let '(bs, cb'') := allowRequests nows' cb' in
      (b :: bs, cb'')
  end.

End CircuitBreaker.

(** ** The provider base class (sports-data-provider.ts, provider-types.ts)

    The logger and the metrics collector are injected collaborators that
    touch neither the limiter nor the breaker; their calls (and the clock
    readings taken only to report durations) are left out. *)

Module Provider.

(** What is thrown inside the [try] block of [executeRequest]. *)
Inductive Error : Type :=
| ProviderUnavailableError (message : string)
| RateLimiterTimeoutError     (* Error('Rate limiter timeout: could not acquire token') *)
| RequestError (message : string).   (* whatever the request function throws *)

(** [ProviderError(providerName, operation, originalError)], the only
    error [executeRequest] lets out. *)
Record ProviderError : Type := {
  providerName : string;
  operation : string;
  originalError : Error
}.

Record t : Type := {
  name : string;                       (* getName() *)
  rateLimiter : RateLimiter.t;
  circuitBreaker : CircuitBreaker.t
}.

(** The clock readings one call of [executeRequest] may take. *)
Record Clock : Type := {
  atAllow : Z;                         (* allowRequest() *)
  acquireStart : Z;                    (* acquire(): startTime *)
  acquireRounds : list (Z * Z);        (* acquire(): the polling rounds *)
  atFailure : Z;                       (* recordFailure(): lastFailureTime *)
  atReopen : Z                         (* recordFailure(): transitionToOpen() *)
}.

Definition set_circuitBreaker (cb : CircuitBreaker.t) (p : t) : t :=
  {| name := name p; rateLimiter := rateLimiter p; circuitBreaker := cb |}.

Definition set_rateLimiter (rl : RateLimiter.t) (p : t) : t :=
  {| name := name p; rateLimiter := rl; circuitBreaker := circuitBreaker p |}.

(** [this.circuitBreaker.allowRequest()] *)
Definition allowRequest (now : Z) : Eff.t t Error bool :=
  Eff.lift (fun p =>
    let '(b, cb) := CircuitBreaker.allowRequest now (circuitBreaker p) in
    (b, set_circuitBreaker cb p)).

(** [await this.rateLimiter.acquire()] *)
Definition acquire (startTime : Z) (rounds : list (Z * Z)) : Eff.t t Error unit :=
  fun p =>
    let '(o, rl) := RateLimiter.acquire None startTime rounds (rateLimiter p) in
    let p' := set_rateLimiter rl p in
    match o with
    | RateLimiter.Acquired => (Eff.Returned tt, p')
    | RateLimiter.TimedOut => (Eff.Thrown RateLimiterTimeoutError, p')
    | RateLimiter.Polling => (Eff.Pending, p')
    end.

(** [await request()]: the outcome of the network call and transform,
    which do not touch the provider's state. *)
Definition call {T} (request : Eff.result Error T) : Eff.t t Error T :=
  fun p => (request, p).

Definition recordSuccess : Eff.t t Error unit :=
  Eff.modify (fun p =>
    set_circuitBreaker (CircuitBreaker.recordSuccess (circuitBreaker p)) p).

Definition recordFailure (now now' : Z) : Eff.t t ProviderError unit :=
  Eff.modify (fun p =>
    set_circuitBreaker (CircuitBreaker.recordFailure now now' (circuitBreaker p)) p).

(** [executeRequest(operation, request)] *)
Definition executeRequest {T} (op : string) (request : Eff.result Error T)
    (clk : Clock) : Eff.t t ProviderError T :=
  fun p =>
  Eff.try_catch
    (allowed <- allowRequest (atAllow clk) ;;
     (if negb allowed
      then Eff.throw (ProviderUnavailableError (name p +:+ " circuit breaker is open"))
      else Eff.ret tt) ;;;
     acquire (acquireStart clk) (acquireRounds clk) ;;;
     result <- call request ;;
     recordSuccess ;;;
     Eff.ret result)%eff
    (fun error =>
     (recordFailure (atFailure clk) (atReopen clk) ;;;
      Eff.throw {| providerName := name p; operation := op;
                   originalError := error |})%eff)
    p.

(** [isAvailable()] *)
Definition isAvailable (p : t) : bool :=
  match CircuitBreaker.getState (circuitBreaker p) with
  | CircuitBreaker.OPEN => false
  | _ => true
  end.

End Provider.

(** ** Games (game-status.ts, game.entity.ts)

    Of a [Game] only the fields the use cases read are kept. *)

Module Game.

Inductive GameStatus : Type :=
| SCHEDULED | PREGAME | IN_PROGRESS | HALFTIME | FINAL | FINAL_OVERTIME
| POSTPONED | CANCELLED | SUSPENDED | DELAYED.

Definition isLiveStatus (status : GameStatus) : bool :=
  match status with
  | IN_PROGRESS | HALFTIME => true
  | _ => false
  end.

Definition isCompletedStatus (status : GameStatus) : bool :=
  match status with
  | FINAL | FINAL_OVERTIME => true
  | _ => false
  end.

Record t : Type := {
  id : string;
  status : GameStatus;
  scheduledAt : Z      (* scheduledAt.getTime(), of a valid Date *)
}.

Definition isLive (g : t) : bool := isLiveStatus (status g).
Definition isCompleted (g : t) : bool := isCompletedStatus (status g).

End Game.

(** ** Array.prototype.sort

    ECMAScript requires [sort] to be stable, so for a consistent comparator
    its result is the one a stable insertion sort gives. *)

Module JsArray.

Section Sort.
Context {A : Type} (compareFn : A -> A -> Z).

Fixpoint insert (x : A) (l : list A) : list A :=
  match l with
  | [] => [x]
  | y :: l' => if compareFn x y <=? 0 then x :: y :: l' else y :: insert x l'
  end.

Definition sort (l : list A) : list A := foldr insert [] l.
End Sort.

End JsArray.

(** ** In-memory cache (cache.service.ts)

    The [Map] is a [gmap]; the periodic timer of the constructor is the
    environment calling [cleanup] at times of its choosing. *)

Module Cache.

Record CacheEntry (V : Type) : Type := {
  value : V;
  expiresAt : Q;
  cachedAt : Z
}.
Arguments value {V} _.
Arguments expiresAt {V} _.
Arguments cachedAt {V} _.

Abbreviation t V := (gmap string (CacheEntry V)).

Section Methods.
Context {V : Type}.

(** [Date.now() > entry.expiresAt] *)
Definition expired (now : Z) (entry : CacheEntry V) : bool :=
  Qltb (expiresAt entry) (inject_Z now).

(** [get(key)]; [now] is read only when the key has an entry. *)
Definition get (key : string) (now : Z) (cache : t V) : option V * t V :=
  match cache !! key with
  | None => (None, cache)
  | Some entry =>
      if expired now entry then (None, delete key cache)
      else (Some (value entry), cache)
  end.

(** [set(key, value, ttlSeconds)]; [now] is the reading of [expiresAt],
    [now'] the one of [cachedAt]. *)
Definition set (key : string) (v : V) (ttlSeconds : Q) (now now' : Z)
    (cache : t V) : t V :=
  let expiresAt := (inject_Z now + ttlSeconds * 1000)%Q in
  <[key := {| value := v; expiresAt := expiresAt; cachedAt := now' |}]> cache.

(** [delete(key)] *)
Definition delete_ (key : string) (cache : t V) : t V := delete key cache.

(** [has(key)] *)
Definition has (key : string) (now : Z) (cache : t V) : bool * t V :=
  match cache !! key with
  | None => (false, cache)
  | Some entry =>
      if expired now entry then (false, delete key cache)
      else (true, cache)
  end.

(** [clear()] *)
Definition clear (cache : t V) : t V := ∅.

(** [cleanup()] *)
Definition cleanup (now : Z) (cache : t V) : t V :=
  filter (fun kv => expired now (snd kv) = false) cache.
End Methods.

End Cache.

(** ** In-memory event bus (event-bus.ts)

    A handler is a function identified by [hid] (the identity a [Set]
    compares); it acts on a state [W] of its own and either completes or
    fails (throws, or returns a promise that rejects).  A [Set] is its
    list of members in insertion order.  Handlers that subscribe or
    unsubscribe while an event is dispatched, and handlers whose promise
    never settles, are not modelled. *)

Module EventBus.

Section WithWorld.
Context {D W : Type}.

Record DomainEvent : Type := {
  eventName : string;
  occurredAt : Z;
  data : D
}.

Inductive HandlerOutcome : Type :=
| Completed
| Failed (error : string).

Record EventHandler : Type := {
  hid : nat;
  run : DomainEvent -> W -> HandlerOutcome * W
}.

Record t : Type := {
  handlers : gmap string (list EventHandler);
  onceHandlers : gmap string (list EventHandler)
}.

(** The bus, the console and the handlers' state. *)
Record World : Type := {
  bus : t;
  console : list string;
  world : W
}.

Definition new : t := {| handlers := ∅; onceHandlers := ∅ |}.

(** [Set.prototype.add] *)
Definition set_add (h : EventHandler) (hs : list EventHandler) : list EventHandler :=
  if existsb (fun h' => Nat.eqb (hid h') (hid h)) hs then hs else hs ++ [h].

(** [Set.prototype.delete] *)
Definition set_delete (h : EventHandler) (hs : list EventHandler) : list EventHandler :=
  List.filter (fun h' => negb (Nat.eqb (hid h') (hid h))) hs.

(** [on(eventName, handler)] *)
Definition on (name : string) (h : EventHandler) (b : t) : t :=
  {| handlers := <[name := set_add h (default [] (handlers b !! name))]> (handlers b);
     onceHandlers := onceHandlers b |}.

(** [off(eventName, handler)] *)
Definition off (name : string) (h : EventHandler) (b : t) : t :=
  match handlers b !! name with
  | Some hs =>
      let hs' := set_delete h hs in
      {| handlers := if Nat.eqb (length hs') 0 then delete name (handlers b)
                     else <[name := hs']> (handlers b);
         onceHandlers := onceHandlers b |}
  | None => b
  end.

(** [once(eventName, handler)] *)
Definition once (name : string) (h : EventHandler) (b : t) : t :=
  {| handlers := handlers b;
     onceHandlers :=
       <[name := set_add h (default [] (onceHandlers b !! name))]> (onceHandlers b) |}.

(** [await handler(event)] *)
Definition invoke (h : EventHandler) (event : DomainEvent) : Eff.t World string unit :=
  fun s =>
    let '(o, w) := run h event (world s) in
    let s' := {| bus := bus s; console := console s; world := w |} in
    match o with
    | Completed => (Eff.Returned tt, s')
    | Failed error => (Eff.Thrown error, s')
    end.

(** [console.error(message, error)] *)
Definition console_error (message error : string) : Eff.t World string unit :=
  Eff.modify (fun s =>
    {| bus := bus s; console := console s ++ [message +:+ " " +:+ error];
       world := world s |}).

(** [for (const handler of hs) { try { await handler(event) } catch (error) { console.error(...) } }] *)
Fixpoint dispatch (message : string) (hs : list EventHandler) (event : DomainEvent)
    : Eff.t World string unit :=
  match hs with
  | [] => Eff.ret tt
  | h :: hs' =>
      (Eff.try_catch (invoke h event) (fun error => console_error message error) ;;;
       dispatch message hs' event)%eff
  end.

(** [this.onceHandlers.delete(eventName)] *)
Definition delete_once (name : string) : Eff.t World string unit :=
  Eff.modify (fun s =>
    {| bus := {| handlers := handlers (bus s);
                 onceHandlers := delete name (onceHandlers (bus s)) |};
       console := console s; world := world s |}).

(** [emit(eventName, data)]; [now] is the reading of [occurredAt]. *)
Definition emit (name : string) (d : D) (now : Z) : Eff.t World string unit :=
  let event := {| eventName := name; occurredAt := now; data := d |} in
  (s <- Eff.get ;;
   match handlers (bus s) !! name with
   | Some regularHandlers =>
       dispatch ("Error in event handler for " +:+ name +:+ ":") regularHandlers event
   | None => Eff.ret tt
   end ;;;
   s <- Eff.get ;;
   match onceHandlers (bus s) !! name with
   | Some onceHandlers =>
       (dispatch ("Error in once handler for " +:+ name +:+ ":") onceHandlers event ;;;
        delete_once name)
   | None => Eff.ret tt
   end)%eff.

(** [getSubscriberCount(eventName)] *)
Definition getSubscriberCount (name : string) (b : t) : nat :=
  length (default [] (handlers b !! name)) + length (default [] (onceHandlers b !! name)).
End WithWorld.

Arguments DomainEvent : clear implicits.
Arguments EventHandler : clear implicits.
Arguments t : clear implicits.
Arguments World : clear implicits.

End EventBus.

(** ** The use cases

    A use case is given its collaborators as the constructor is: the
    repository methods are functions (what the awaited call resolves to),
    the cache is the in-memory cache above, and the event bus is observed
    through the list of events handed to [emit], in order. *)

Module Season.

Inductive SeasonType : Type := preseason | regular | postseason.

Definition to_string (s : SeasonType) : string :=
  match s with
  | preseason => "preseason"
  | regular => "regular"
  | postseason => "postseason"
  end.

(** [seasonType || 'regular'] *)
Definition or_regular (s : option SeasonType) : string :=
  to_string (default regular s).

End Season.

(** *** Scoreboard by week (get-scoreboard.use-case.ts) *)

Module Scoreboard.

Record GetScoreboardParams : Type := {
  season : Z;
  week : Z;
  seasonType : option Season.SeasonType
}.

Record Metadata : Type := {
  meta_season : Z;
  meta_week : Z;
  meta_seasonType : string;
  cachedAt : option Z;
  gameCount : Z;
  liveGameCount : Z
}.

Record ScoreboardResult : Type := {
  games : list Game.t;
  fromCache : bool;
  metadata : Metadata
}.

(** The events handed to [eventBus.emit]. *)
Inductive Event : Type :=
| CacheHit (params : GetScoreboardParams) (cachedAt : option Z)       (* 'scoreboard.cache-hit' *)
| Fetched (params : GetScoreboardParams) (gameCount liveGameCount ttl : Z).  (* 'scoreboard.fetched' *)

Record Env : Type := {
  cache : Cache.t ScoreboardResult;
  emitted : list Event
}.

(** The clock readings of one [execute]. *)
Record Clock : Type := {
  atGet : Z;           (* cacheService.get *)
  atAge : Z;           (* shouldRefreshCache *)
  atBuild : Z;         (* new Date() of the result *)
  atSet : Z;           (* cacheService.set: expiresAt *)
  atSet' : Z           (* cacheService.set: cachedAt *)
}.

(** [buildCacheKey(params)] *)
Definition buildCacheKey (params : GetScoreboardParams) : string :=
  "scoreboard:" +:+ pretty (season params) +:+ ":" +:+
  Season.or_regular (seasonType params) +:+ ":" +:+ pretty (week params).

(** [shouldRefreshCache(cached)] *)
Definition shouldRefreshCache (now : Z) (cached : ScoreboardResult) : bool :=
  match cachedAt (metadata cached) with
  | None => true
  | Some t =>
      let cacheAge := now - t in
      if 0 <? liveGameCount (metadata cached) then 30 * 1000 <? cacheAge
      else 5 * 60 * 1000 <? cacheAge
  end.

(** [calculateCacheTTL(result)] *)
Definition calculateCacheTTL (result : ScoreboardResult) : Z :=
  if 0 <? liveGameCount (metadata result) then 30
  else
    let allCompleted := forallb Game.isCompleted (games result) in
    if allCompleted then 3600
    else
      let allScheduled :=
        forallb (fun g => negb (Game.isLive g) && negb (Game.isCompleted g)) (games result) in
      if allScheduled then 300
      else 60.

(** The result [execute] builds from the fetched games. *)
Definition buildResult (params : GetScoreboardParams) (games : list Game.t) (now : Z)
    : ScoreboardResult :=
  {| games := games;
     fromCache := false;
     metadata :=
       {| meta_season := season params;
          meta_week := week params;
          meta_seasonType := Season.or_regular (seasonType params);
          cachedAt := Some now;
          gameCount := Z.of_nat (length games);
          liveGameCount := Z.of_nat (length (List.filter Game.isLive games)) |} |}.

Definition with_fromCache (b : bool) (r : ScoreboardResult) : ScoreboardResult :=
  {| games := games r; fromCache := b; metadata := metadata r |}.

(** [execute(params)] *)
Definition execute
    (findByWeek : Z -> Z -> option Season.SeasonType -> list Game.t)
    (params : GetScoreboardParams) (clk : Clock) (env : Env)
    : ScoreboardResult * Env :=
  let cacheKey := buildCacheKey params in
  let '(cached, cache1) := Cache.get cacheKey (atGet clk) (cache env) in
  let fresh :=
    match cached with
    | Some c => if shouldRefreshCache (atAge clk) c then None else Some c
    | None => None
    end in
  match fresh with
  | Some c =>
      (with_fromCache true c,
       {| cache := cache1;
          emitted := emitted env ++ [CacheHit params (cachedAt (metadata c))] |})
  | None =>
      let games := findByWeek (season params) (week params) (seasonType params) in
      let result := buildResult params games (atBuild clk) in
      let ttl := calculateCacheTTL result in
      let cache2 := Cache.set cacheKey result (inject_Z ttl) (atSet clk) (atSet' clk) cache1 in
      (result,
       {| cache := cache2;
          emitted := emitted env ++
            [Fetched params (Z.of_nat (length games)) (liveGameCount (metadata result)) ttl] |})
  end.

End Scoreboard.

(** *** Schedule (get-schedule.use-case.ts) *)

Module Schedule.

Record GetScheduleParams : Type := {
  season : Z;
  week : option Z;
  seasonType : option Season.SeasonType
}.

Record Metadata : Type := {
  meta_season : Z;
  meta_week : option Z;
  meta_seasonType : string;
  cachedAt : option Z;
  gameCount : Z;
  upcomingGameCount : Z
}.

Record ScheduleResult : Type := {
  games : list Game.t;
  fromCache : bool;
  metadata : Metadata
}.

Inductive Event : Type :=
| CacheHit (params : GetScheduleParams) (cachedAt : option Z)   (* 'schedule.cache-hit' *)
| Fetched (params : GetScheduleParams) (gameCount ttl : Z).     (* 'schedule.fetched' *)

Record Env : Type := {
  cache : Cache.t ScheduleResult;
  emitted : list Event
}.

Record Clock : Type := {
  atGet : Z;
  atAge : Z;
  atBuild : Z;
  atSet : Z;
  atSet' : Z
}.

(** The repository methods [execute] calls. *)
Record Repository : Type := {
  findByWeek : Z -> Z -> option Season.SeasonType -> list Game.t;
  findByFilter : Z -> option Season.SeasonType -> list Game.t
}.

(** [params.week] used as a condition: a number other than 0. *)
Definition truthy_week (w : option Z) : option Z :=
  match w with
  | Some n => if n =? 0 then None else Some n
  | None => None
  end.

(** [buildCacheKey(params)] *)
Definition buildCacheKey (params : GetScheduleParams) : string :=
  let seasonType := Season.or_regular (seasonType params) in
  let weekPart :=
    match truthy_week (week params) with
    | Some w => ":" +:+ pretty w
    | None => ":all"
    end in
  "schedule:" +:+ pretty (season params) +:+ ":" +:+ seasonType +:+ weekPart.

(** [shouldRefreshCache(cached)] *)
Definition shouldRefreshCache (now : Z) (cached : ScheduleResult) : bool :=
  match cachedAt (metadata cached) with
  | None => true
  | Some t => let cacheAge := now - t in 5 * 60 * 1000 <? cacheAge
  end.

(** [calculateCacheTTL()] *)
Definition calculateCacheTTL : Z := 300.

(** [(a, b) => a.scheduledAt.getTime() - b.scheduledAt.getTime()] *)
Definition byScheduledAt (a b : Game.t) : Z :=
  Game.scheduledAt a - Game.scheduledAt b.

Definition with_fromCache (b : bool) (r : ScheduleResult) : ScheduleResult :=
  {| games := games r; fromCache := b; metadata := metadata r |}.

(** The repository call of [execute]. *)
Definition fetch (repo : Repository) (params : GetScheduleParams) : list Game.t :=
  match truthy_week (week params) with
  | Some w => findByWeek repo (season params) w (seasonType params)
  | None => findByFilter repo (season params) (seasonType params)
  end.

(** [execute(params)] *)
Definition execute (repo : Repository) (params : GetScheduleParams)
    (clk : Clock) (env : Env) : ScheduleResult * Env :=
  let cacheKey := buildCacheKey params in
  let '(cached, cache1) := Cache.get cacheKey (atGet clk) (cache env) in
  let fresh :=
    match cached with
    | Some c => if shouldRefreshCache (atAge clk) c then None else Some c
    | None => None
    end in
  match fresh with
  | Some c =>
      (with_fromCache true c,
       {| cache := cache1;
          emitted := emitted env ++ [CacheHit params (cachedAt (metadata c))] |})
  | None =>
      let games := fetch repo params in
      let scheduledGames :=
        List.filter (fun g => negb (Game.isLive g) && negb (Game.isCompleted g)) games in
      let scheduledGames := JsArray.sort byScheduledAt scheduledGames in
      let result :=
        {| games := scheduledGames;
           fromCache := false;
           metadata :=
             {| meta_season := season params;
                meta_week := week params;
                meta_seasonType := Season.or_regular (seasonType params);
                cachedAt := Some (atBuild clk);
                gameCount := Z.of_nat (length scheduledGames);
                upcomingGameCount := Z.of_nat (length scheduledGames) |} |} in
      let ttl := calculateCacheTTL in
      let cache2 := Cache.set cacheKey result (inject_Z ttl) (atSet clk) (atSet' clk) cache1 in
      (result,
       {| cache := cache2;
          emitted := emitted env ++ [Fetched params (Z.of_nat (length scheduledGames)) ttl] |})
  end.

End Schedule.

(** *** Game details (get-game-details.use-case.ts) *)

Module GameDetails.

Record GetGameDetailsParams : Type := {
  gameId : string
}.

Record GameDetailsResult : Type := {
  game : option Game.t;
  fromCache : bool;
  cachedAt : Z            (* metadata.cachedAt *)
}.

Inductive Event : Type :=
| CacheHit (gameId : string) (cachedAt : Z)                      (* 'game-details.cache-hit' *)
| Fetched (gameId : string) (status : Game.GameStatus) (ttl : Z). (* 'game-details.fetched' *)

Record Env : Type := {
  cache : Cache.t GameDetailsResult;
  emitted : list Event
}.

Record Clock : Type := {
  atGet : Z;
  atAge : Z;
  atBuild : Z;
  atSet : Z;
  atSet' : Z
}.

(** [buildCacheKey(gameId)] *)
Definition buildCacheKey (gameId : string) : string := "game:" +:+ gameId.

(** [shouldRefreshCache(cached)] *)
Definition shouldRefreshCache (now : Z) (cached : GameDetailsResult) : bool :=
  match game cached with
  | None => true
  | Some game =>
      let cacheAge := now - cachedAt cached in
      if Game.isLive game then 15 * 1000 <? cacheAge
      else if Game.isCompleted game then 3600 * 1000 <? cacheAge
      else 5 * 60 * 1000 <? cacheAge
  end.

(** [calculateCacheTTL(game)] *)
Definition calculateCacheTTL (game : Game.t) : Z :=
  if Game.isLive game then 15
  else if Game.isCompleted game then 3600
  else 300.

Definition with_fromCache (b : bool) (r : GameDetailsResult) : GameDetailsResult :=
  {| game := game r; fromCache := b; cachedAt := cachedAt r |}.

(** [cached && cached.game && !this.shouldRefreshCache(cached)] *)
Definition usable (now : Z) (cached : option GameDetailsResult) : option GameDetailsResult :=
  match cached with
  | Some c =>
      match game c with
      | Some _ => if shouldRefreshCache now c then None else Some c
      | None => None
      end
  | None => None
  end.

(** [execute(params)] *)
Definition execute (findById : string -> option Game.t)
    (params : GetGameDetailsParams) (clk : Clock) (env : Env)
    : GameDetailsResult * Env :=
  let cacheKey := buildCacheKey (gameId params) in
  let '(cached, cache1) := Cache.get cacheKey (atGet clk) (cache env) in
  match usable (atAge clk) cached with
  | Some c =>
      (with_fromCache true c,
       {| cache := cache1;
          emitted := emitted env ++ [CacheHit (gameId params) (cachedAt c)] |})
  | None =>
      let game := findById (gameId params) in
      let result := {| game := game; fromCache := false; cachedAt := atBuild clk |} in
      match game with
      | Some g =>
          let ttl := calculateCacheTTL g in
          let cache2 :=
            Cache.set cacheKey result (inject_Z ttl) (atSet clk) (atSet' clk) cache1 in
          (result,
           {| cache := cache2;
              emitted := emitted env ++ [Fetched (gameId params) (Game.status g) ttl] |})
      | None => (result, {| cache := cache1; emitted := emitted env |})
      end
  end.

End GameDetails.

(** ** Further methods and runs of the resilience components *)

(** *** Rate limiter: runs of operations and the tokens they take *)

Module RateLimiterRun.
Import RateLimiter.

(** The tokens an operation takes: one for a [tryAcquire] answering true
    and for an [acquire] that returns, none otherwise. *)
Definition granted (op : Op) (rl : RateLimiter.t) : Z :=
  match op with
  | OpTryAcquire now => if fst (tryAcquire now rl) then 1 else 0
  | OpAcquire timeoutMs startTime rounds =>
      match fst (acquire timeoutMs startTime rounds rl) with
      | Acquired => 1
      | _ => 0
      end
  | _ => 0
  end.

(** The tokens a sequence of operations takes in all. *)
Fixpoint total_granted (ops : list Op) (rl : RateLimiter.t) : Z :=
  match ops with
  | [] => 0
  | op :: ops' => granted op rl + total_granted ops' (step op rl)
  end.

Definition is_reset (op : Op) : bool :=
  match op with OpReset _ => true | _ => false end.

(** [k] calls of [tryAcquire()], all at the clock reading [now]: the
    answers, in order. *)
Fixpoint tryAcquires (k : nat) (now : Z) (rl : RateLimiter.t) : list bool :=
  match k with
  | O => []
  | S k' => let '(ok, rl') := tryAcquire now rl in ok :: tryAcquires k' now rl'
  end.

End RateLimiterRun.

(** *** Circuit breaker: metrics and runs of operations *)

Module CircuitBreakerRun.
Import CircuitBreaker.

Record Metrics : Type := {
  m_state : CircuitState;
  m_failureCount : Z;
  m_successCount : Z;
  m_requestCount : Z;
  m_failureRate : Q;
  m_lastFailureTime : Z
}.

(** [getMetrics()] *)
Definition getMetrics (cb : CircuitBreaker.t) : Metrics :=
  {| m_state := state cb;
     m_failureCount := failureCount cb;
     m_successCount := successCount cb;
     m_requestCount := requestCount cb;
     m_failureRate := if 0 <? requestCount cb then failureRate cb else 0%Q;
     m_lastFailureTime := lastFailureTime cb |}.

(** The public methods that change the breaker, with their clock
    readings. *)
Inductive Op : Type :=
| OpAllowRequest (now : Z)
| OpRecordSuccess
| OpRecordFailure (now now' : Z)
| OpReset
| OpForceState (st : CircuitState).

Definition step (op : Op) (cb : CircuitBreaker.t) : CircuitBreaker.t :=
  match op with
  | OpAllowRequest now => snd (allowRequest now cb)
  | OpRecordSuccess => recordSuccess cb
  | OpRecordFailure now now' => recordFailure now now' cb
  | OpReset => reset cb
  | OpForceState st => forceState st cb
  end.

Definition run (ops : list Op) (cb : CircuitBreaker.t) : CircuitBreaker.t :=
  fold_left (fun cb op => step op cb) ops cb.

(** [n] successful requests. *)
Definition successes (n : nat) : list Record_ := repeat Success n.

End CircuitBreakerRun.

(** *** JavaScript numbers

    Where what a method does with NaN, an infinity or a fraction matters, a
    [number] is a [JsNumber.t]: NaN, an infinity, or a finite value, taken as
    the exact rational it denotes.  Zero is +0.  On whole numbers (below
    2^53) doubles compute exactly what is computed here. *)

Module JsNumber.

Inductive t : Type :=
| NaN
| NegInf
| Num (q : Q)
| PosInf.

Definition of_Z (z : Z) : t := Num (inject_Z z).

(** [Number.isNaN(a)] *)
Definition isNaN (a : t) : bool :=
  match a with
  | NaN => true
  | _ => false
  end.

(** [a < b]: false when a side is NaN. *)
Definition ltb (a b : t) : bool :=
  match a, b with
  | NaN, _ => false
  | _, NaN => false
  | NegInf, NegInf => false
  | NegInf, _ => true
  | Num p, Num q => Qltb p q
  | Num _, PosInf => true
  | Num _, NegInf => false
  | PosInf, _ => false
  end.

(** [a > b] *)
Definition gtb (a b : t) : bool := ltb b a.

(** [a >= b]: false when a side is NaN. *)
Definition geb (a b : t) : bool :=
  match a, b with
  | NaN, _ => false
  | _, NaN => false
  | _, NegInf => true
  | PosInf, _ => true
  | NegInf, _ => false
  | Num _, PosInf => false
  | Num p, Num q => Qleb q p
  end.

(** [a === b] *)
Definition eqb (a b : t) : bool :=
  match a, b with
  | NegInf, NegInf => true
  | PosInf, PosInf => true
  | Num p, Num q => Qeq_bool p q
  | _, _ => false
  end.

(** The infinity of the given sign; [Eq] (of a zero factor) gives NaN. *)
Definition inf (sign : comparison) : t :=
  match sign with
  | Lt => NegInf
  | Eq => NaN
  | Gt => PosInf
  end.

(** The sign of a finite number, and of a product or quotient. *)
Definition sign (q : Q) : comparison := (q ?= 0)%Q.

Definition sign_mul (s1 s2 : comparison) : comparison :=
  match s1, s2 with
  | Eq, _ => Eq
  | _, Eq => Eq
  | Lt, Lt => Gt
  | Gt, Gt => Gt
  | _, _ => Lt
  end.

(** [a + b] *)
Definition add (a b : t) : t :=
  match a, b with
  | NaN, _ => NaN
  | _, NaN => NaN
  | PosInf, NegInf => NaN
  | NegInf, PosInf => NaN
  | PosInf, _ => PosInf
  | _, PosInf => PosInf
  | NegInf, _ => NegInf
  | _, NegInf => NegInf
  | Num p, Num q => Num (p + q)
  end.

(** [a * b] *)
Definition mul (a b : t) : t :=
  match a, b with
  | NaN, _ => NaN
  | _, NaN => NaN
  | Num p, Num q => Num (p * q)
  | Num p, PosInf => inf (sign_mul (sign p) Gt)
  | Num p, NegInf => inf (sign_mul (sign p) Lt)
  | PosInf, Num q => inf (sign_mul Gt (sign q))
  | NegInf, Num q => inf (sign_mul Lt (sign q))
  | PosInf, PosInf => PosInf
  | NegInf, NegInf => PosInf
  | PosInf, NegInf => NegInf
  | NegInf, PosInf => NegInf
  end.

(** [a / b]: a finite number over zero is an infinity (NaN for 0 / 0), over
    an infinity it is zero. *)
Definition div (a b : t) : t :=
  match a, b with
  | NaN, _ => NaN
  | _, NaN => NaN
  | Num p, Num q => if Qeq_bool q 0 then inf (sign p) else Num (p / q)
  | Num _, PosInf => Num 0
  | Num _, NegInf => Num 0
  | PosInf, Num q => if Qltb q 0 then NegInf else PosInf
  | NegInf, Num q => if Qltb q 0 then PosInf else NegInf
  | _, _ => NaN
  end.

(** Rounding towards zero. *)
Definition Qtrunc (q : Q) : Z :=
  if Qle_bool 0 q then Qfloor q else Qceiling q.

(** [a % b]: the remainder with the sign of the dividend. *)
Definition rem (a b : t) : t :=
  match a, b with
  | Num p, Num q =>
      if Qeq_bool q 0 then NaN else Num (p - q * inject_Z (Qtrunc (p / q)))
  | Num p, PosInf => Num p
  | Num p, NegInf => Num p
  | _, _ => NaN
  end.

(** [Math.floor(a)] *)
Definition floor (a : t) : t :=
  match a with
  | Num p => of_Z (Qfloor p)
  | other => other
  end.

End JsNumber.

(** *** Circuit breaker, with its configuration as JavaScript numbers

    The constructor, [recordFailure] and [transitionToOpen] once more, with
    the fields of the configuration, the failure rate and [nextAttemptTime]
    as [number]s, NaN and the infinities included: what the constructor's
    range check lets through, and what [recordFailure] then compares. *)

Module CircuitBreakerJs.

Record CircuitBreakerConfig : Type := {
  failureThreshold : JsNumber.t;
  minimumRequests : JsNumber.t;
  resetTimeout : JsNumber.t;
  successThreshold : option JsNumber.t
}.

Record t : Type := {
  config : CircuitBreakerConfig;
  state : CircuitBreaker.CircuitState;
  failureCount : Z;
  successCount : Z;
  requestCount : Z;
  lastFailureTime : Z;
  nextAttemptTime : JsNumber.t
}.

(** [constructor(config)]:
    [if (config.failureThreshold < 0 || config.failureThreshold > 100) throw]. *)
Definition new (cfg : CircuitBreakerConfig) : option t :=
  if JsNumber.ltb (failureThreshold cfg) (JsNumber.of_Z 0)
     || JsNumber.gtb (failureThreshold cfg) (JsNumber.of_Z 100)
  then None
  else Some {| config := cfg; state := CircuitBreaker.CLOSED;
               failureCount := 0; successCount := 0; requestCount := 0;
               lastFailureTime := 0; nextAttemptTime := JsNumber.of_Z 0 |}.

(** [transitionToOpen()] *)
Definition transitionToOpen (now : Z) (cb : t) : t :=
  {| config := config cb; state := CircuitBreaker.OPEN;
     failureCount := failureCount cb; successCount := successCount cb;
     requestCount := requestCount cb; lastFailureTime := lastFailureTime cb;
     nextAttemptTime := JsNumber.add (JsNumber.of_Z now) (resetTimeout (config cb)) |}.

(** [(this.failureCount / this.requestCount) * 100] *)
Definition failureRate (cb : t) : JsNumber.t :=
  JsNumber.mul
    (JsNumber.div (JsNumber.of_Z (failureCount cb)) (JsNumber.of_Z (requestCount cb)))
    (JsNumber.of_Z 100).

(** [recordFailure()]; [now] is stored in [lastFailureTime], [now'] is the
    reading [transitionToOpen] takes when the circuit opens. *)
Definition recordFailure (now now' : Z) (cb : t) : t :=
  let cb := {| config := config cb; state := state cb;
               failureCount := failureCount cb + 1;
               successCount := successCount cb;
               requestCount := requestCount cb + 1;
               lastFailureTime := now;
               nextAttemptTime := nextAttemptTime cb |} in
  match state cb with
  | CircuitBreaker.HALF_OPEN => transitionToOpen now' cb
  | _ =>
      if JsNumber.geb (JsNumber.of_Z (requestCount cb)) (minimumRequests (config cb)) then
        if JsNumber.geb (failureRate cb) (failureThreshold (config cb))
        then transitionToOpen now' cb else cb
      else cb
  end.

(** Failed requests recorded one after the other, at the given pairs of
    clock readings. *)
Definition recordFailures (ts : list (Z * Z)) (cb : t) : t :=
  fold_left (fun cb t => recordFailure (fst t) (snd t) cb) ts cb.

(** A configuration and a breaker of [CircuitBreaker], whose fields are
    finite, as they read here. *)
Definition of_config (cfg : CircuitBreaker.CircuitBreakerConfig) : CircuitBreakerConfig :=
  {| failureThreshold := JsNumber.Num (CircuitBreaker.failureThreshold cfg);
     minimumRequests := JsNumber.of_Z (CircuitBreaker.minimumRequests cfg);
     resetTimeout := JsNumber.of_Z (CircuitBreaker.resetTimeout cfg);
     successThreshold := JsNumber.of_Z <$> CircuitBreaker.successThreshold cfg |}.

Definition of_breaker (cb : CircuitBreaker.t) : t :=
  {| config := of_config (CircuitBreaker.config cb);
     state := CircuitBreaker.state cb;
     failureCount := CircuitBreaker.failureCount cb;
     successCount := CircuitBreaker.successCount cb;
     requestCount := CircuitBreaker.requestCount cb;
     lastFailureTime := CircuitBreaker.lastFailureTime cb;
     nextAttemptTime := JsNumber.of_Z (CircuitBreaker.nextAttemptTime cb) |}.

End CircuitBreakerJs.

(** *** Live games (get-live-games.use-case.ts) *)

Module LiveGames.

Record Metadata : Type := {
  cachedAt : Z;
  gameCount : Z
}.

Record LiveGamesResult : Type := {
  games : list Game.t;
  fromCache : bool;
  metadata : Metadata
}.

Inductive Event : Type :=
| CacheHit (cachedAt gameCount : Z)     (* 'live-games.cache-hit' *)
| Fetched (gameCount ttl : Z).          (* 'live-games.fetched' *)

Record Env : Type := {
  cache : Cache.t LiveGamesResult;
  emitted : list Event
}.

Record Clock : Type := {
  atGet : Z;           (* cacheService.get *)
  atBuild : Z;         (* new Date() of the result *)
  atSet : Z;           (* cacheService.set: expiresAt *)
  atSet' : Z           (* cacheService.set: cachedAt *)
}.

Definition CACHE_KEY : string := "games:live".
Definition CACHE_TTL : Z := 15.

Definition with_fromCache (b : bool) (r : LiveGamesResult) : LiveGamesResult :=
  {| games := games r; fromCache := b; metadata := metadata r |}.

(** [execute()]; [findLive] is what [gameRepository.findLive()] resolves
    to. *)
Definition execute (findLive : list Game.t) (clk : Clock) (env : Env)
    : LiveGamesResult * Env :=
  let '(cached, cache1) := Cache.get CACHE_KEY (atGet clk) (cache env) in
  match cached with
  | Some c =>
      (with_fromCache true c,
       {| cache := cache1;
          emitted := emitted env ++
            [CacheHit (cachedAt (metadata c)) (Z.of_nat (length (games c)))] |})
  | None =>
      let games := findLive in
      let result :=
        {| games := games;
           fromCache := false;
           metadata := {| cachedAt := atBuild clk;
                          gameCount := Z.of_nat (length games) |} |} in
      let cache2 :=
        Cache.set CACHE_KEY result (inject_Z CACHE_TTL) (atSet clk) (atSet' clk) cache1 in
      (result,
       {| cache := cache2;
          emitted := emitted env ++ [Fetched (Z.of_nat (length games)) CACHE_TTL] |})
  end.

End LiveGames.

(** ** Value objects and the ESPN transformer *)

(** *** Game clock (game-clock.ts)

    The constructor checks two ranges and nothing else, so minutes and
    seconds are [number]s as they come: fractions and NaN pass the check
    ([fromDisplay] maps [Number] over the parts of its argument). *)

Module GameClock.

Record t : Type := {
  minutes : JsNumber.t;
  seconds : JsNumber.t
}.

(** [new GameClock(minutes, seconds)]:
    [if (minutes < 0 || minutes > 15) throw],
    [if (seconds < 0 || seconds > 59) throw]. *)
Definition new (minutes seconds : JsNumber.t) : option t :=
  if JsNumber.ltb minutes (JsNumber.of_Z 0) || JsNumber.gtb minutes (JsNumber.of_Z 15)
  then None
  else if JsNumber.ltb seconds (JsNumber.of_Z 0) || JsNumber.gtb seconds (JsNumber.of_Z 59)
  then None
  else Some {| minutes := minutes; seconds := seconds |}.

(** [totalSeconds]: [this.minutes * 60 + this.seconds] *)
Definition totalSeconds (c : t) : JsNumber.t :=
  JsNumber.add (JsNumber.mul (minutes c) (JsNumber.of_Z 60)) (seconds c).

(** [GameClock.fromSeconds(totalSeconds)] *)
Definition fromSeconds (totalSeconds : JsNumber.t) : option t :=
  let minutes := JsNumber.floor (JsNumber.div totalSeconds (JsNumber.of_Z 60)) in
  let seconds := JsNumber.rem totalSeconds (JsNumber.of_Z 60) in
  new minutes seconds.

End GameClock.

(** *** Scores (score.ts); points are whole numbers *)

Module Score.

Record PeriodScore : Type := {
  p_home : Z;
  p_away : Z
}.

(** [new PeriodScore(home, away)] *)
Definition newPeriodScore (home away : Z) : option PeriodScore :=
  if (home <? 0) || (away <? 0) then None
  else Some {| p_home := home; p_away := away |}.

Record t : Type := {
  home : Z;
  away : Z;
  periods : list PeriodScore
}.

(** [periods.reduce((sum, p) => sum + p.home, 0)] and the same for
    [away]. *)
Definition periodHomeTotal (periods : list PeriodScore) : Z :=
  fold_left (fun sum p => sum + p_home p) periods 0.
Definition periodAwayTotal (periods : list PeriodScore) : Z :=
  fold_left (fun sum p => sum + p_away p) periods 0.

(** [new Score(home, away, periods = [])] *)
Definition new (home away : Z) (periods : list PeriodScore) : option t :=
  if (home <? 0) || (away <? 0) then None
  else if (0 <? Z.of_nat (length periods))
          && (negb (periodHomeTotal periods =? home)
              || negb (periodAwayTotal periods =? away))
  then None
  else Some {| home := home; away := away; periods := periods |}.

Definition differential (s : t) : Z := home s - away s.
Definition total (s : t) : Z := home s + away s.
Definition isHomeWinning (s : t) : bool := away s <? home s.
Definition isAwayWinning (s : t) : bool := home s <? away s.
Definition isTied (s : t) : bool := home s =? away s.
Definition margin (s : t) : Z := Z.abs (differential s).
Definition isOneScore (s : t) : bool := margin s <=? 8.

(** [withScores(home, away, periods?)]: [periods || this.periods], where
    an array, even an empty one, is truthy. *)
Definition withScores (s : t) (home away : Z) (periods' : option (list PeriodScore))
    : option t :=
  new home away (default (periods s) periods').

(** [addPeriod(periodScore)] *)
Definition addPeriod (s : t) (periodScore : PeriodScore) : option t :=
  new (home s) (away s) (periods s ++ [periodScore]).

End Score.

(** *** The ESPN status transformer (espn-transformer.ts) *)

Module Transformer.

(** [ESPNStatus], with [type.state] and [type.completed]. *)
Record ESPNStatus : Type := {
  clock : Q;
  displayClock : string;
  period : Q;
  state : string;
  completed : bool
}.

(** [String.prototype.toLowerCase] on the letters A to Z; the other bytes
    of a string are left as they are. *)
Definition lower_ascii (c : Ascii.ascii) : Ascii.ascii :=
  let n := Ascii.nat_of_ascii c in
  if (Nat.leb 65 n && Nat.leb n 90)%bool then Ascii.ascii_of_nat (n + 32) else c.

Fixpoint toLowerCase (s : string) : string :=
  match s with
  | EmptyString => EmptyString
  | String c s' => String (lower_ascii c) (toLowerCase s')
  end.

(** [status.period === 2 && status.clock === 0] *)
Definition atHalftime (status : ESPNStatus) : bool :=
  Qeq_bool (period status) 2 && Qeq_bool (clock status) 0.

(** [toGameStatus(status)] *)
Definition toGameStatus (status : ESPNStatus) : Game.GameStatus :=
  let state := toLowerCase (state status) in
  if completed status then Game.FINAL
  else if String.eqb state "pre" then Game.SCHEDULED
  else if String.eqb state "in" then
    if atHalftime status then Game.HALFTIME else Game.IN_PROGRESS
  else if String.eqb state "post" then Game.FINAL
  else Game.SCHEDULED.

(** [GamePeriod], with a number kept as the number it is. *)
Inductive GamePeriod : Type :=
| Quarter (n : Q)
| OT
| HALFTIME.

(** [toPeriod(status)] *)
Definition toPeriod (status : ESPNStatus) : option GamePeriod :=
  let period := period status in
  if atHalftime status then Some HALFTIME
  else if Qltb 4 period then Some OT
  else if Qleb 1 period && Qleb period 4 then Some (Quarter period)
  else None.

(** [toSeasonType(type)] *)
Definition toSeasonType (type : Z) : Season.SeasonType :=
  match type with
  | 1 => Season.preseason
  | 2 => Season.regular
  | 3 => Season.postseason
  | _ => Season.regular
  end.

(** [isUpcomingStatus(status)] of game-status.ts *)
Definition isUpcomingStatus (status : Game.GameStatus) : bool :=
  match status with
  | Game.SCHEDULED | Game.PREGAME => true
  | _ => false
  end.

End Transformer.

(** * Properties *)

(** ** Comparisons of rationals *)

Lemma Qleb_le x y : Qleb x y = true <-> (x <= y)%Q.
Proof. apply Qle_bool_iff. Qed.

Lemma Qleb_gt x y : Qleb x y = false <-> (y < x)%Q.
Proof.
  unfold Qleb. split; intros H.
  - apply Qnot_le_lt. intros Hle. apply Qle_bool_iff in Hle. congruence.
  - destruct (Qle_bool x y) eqn:E; [|reflexivity].
    apply Qle_bool_iff in E. exfalso. apply (Qlt_not_le _ _ H E).
Qed.

Lemma Qltb_lt x y : Qltb x y = true <-> (x < y)%Q.
Proof.
  unfold Qltb. rewrite negb_true_iff. apply Qleb_gt.
Qed.

Lemma Qltb_ge x y : Qltb x y = false <-> (y <= x)%Q.
Proof.
  unfold Qltb. rewrite negb_false_iff. apply Qle_bool_iff.
Qed.

(** ** JavaScript numbers: on whole numbers the arithmetic is that of [Z] *)

Module JsNumberProps.
Import JsNumber.

Lemma ltb_of_Z a b : ltb (of_Z a) (of_Z b) = (a <? b).
Proof.
  unfold ltb, of_Z, Qltb, Qle_bool; cbn. rewrite !Z.mul_1_r.
  symmetry. apply Z.ltb_antisym.
Qed.

Lemma geb_of_Z a b : geb (of_Z a) (of_Z b) = (b <=? a).
Proof. unfold geb, of_Z, Qleb, Qle_bool; cbn. rewrite !Z.mul_1_r. reflexivity. Qed.

Lemma add_of_Z a b : add (of_Z a) (of_Z b) = of_Z (a + b).
Proof. unfold add, of_Z, inject_Z, Qplus; cbn. rewrite !Z.mul_1_r. reflexivity. Qed.

Lemma mul_of_Z a b : mul (of_Z a) (of_Z b) = of_Z (a * b).
Proof. reflexivity. Qed.

Lemma Qtrunc_quot a (p : positive) : Qtrunc (a # p) = Z.quot a (Z.pos p).
Proof.
  unfold Qtrunc, Qle_bool. cbn [Qnum Qden].
  change (0 * Z.pos p) with 0. rewrite Z.mul_1_r.
  destruct (0 <=? a) eqn:E.
  - apply Z.leb_le in E. unfold Qfloor. symmetry. apply Z.quot_div_nonneg; lia.
  - apply Z.leb_gt in E. unfold Qceiling, Qfloor, Qopp. cbn [Qnum Qden].
    rewrite <- Z.quot_div_nonneg by lia.
    rewrite Z.quot_opp_l by lia. lia.
Qed.

Lemma floor_div_of_Z a b : 0 < b -> floor (div (of_Z a) (of_Z b)) = of_Z (a / b).
Proof.
  intros Hb. destruct b as [|p|p]; try lia.
  unfold div, of_Z, inject_Z.
  replace (Qeq_bool (Z.pos p # 1) 0) with false by reflexivity.
  replace ((a # 1) / (Z.pos p # 1))%Q with (a * 1 # p)%Q by reflexivity.
  unfold floor, of_Z, Qfloor, inject_Z. rewrite Z.mul_1_r. reflexivity.
Qed.

Lemma rem_of_Z a b : 0 < b -> rem (of_Z a) (of_Z b) = of_Z (Z.rem a b).
Proof.
  intros Hb. destruct b as [|p|p]; try lia.
  unfold rem, of_Z, inject_Z.
  replace (Qeq_bool (Z.pos p # 1) 0) with false by reflexivity.
  replace ((a # 1) / (Z.pos p # 1))%Q with (a * 1 # p)%Q by reflexivity.
  rewrite Z.mul_1_r, Qtrunc_quot.
  unfold Qminus, Qplus, Qopp, Qmult. cbn [Qnum Qden].
  rewrite !Pos.mul_1_l, !Z.mul_1_r.
  f_equal. f_equal. pose proof (Z.quot_rem' a (Z.pos p)). lia.
Qed.

End JsNumberProps.

(** ** Rate limiter *)

Module RateLimiterProps.
Import RateLimiter.

Lemma inject_Z_nonneg (z : Z) : 0 <= z -> (0 <= inject_Z z)%Q.
Proof. intros H. change 0%Q with (inject_Z 0). rewrite <- Zle_Qle. exact H. Qed.

(** What the induction carries: the bound, a non-negative rate, and a
    [lastRefill] that is not after the latest clock reading [t]. *)
Definition sound (t : Z) (rl : RateLimiter.t) : Prop :=
  (0 <= refillRate rl)%Q /\ bounded rl /\ lastRefill rl <= t.


Lemma new_sound cfg now :
  (0 <= maxRequests cfg)%Q -> (0 < windowMs cfg)%Q -> sound now (new cfg now).
Proof.
  intros Hm Hw. unfold sound, bounded, new; simpl. repeat split.
  - apply Qle_shift_div_l; [exact Hw | lra].
  - exact Hm.
  - apply Qle_refl.
  - lia.
Qed.

Lemma refill_sound t now rl :
  sound t rl -> t <= now -> sound now (refill now rl).
Proof.
  unfold sound, bounded, refill. intros (Hr & (H0 & Hmax) & Hl) Ht; simpl.
  assert (Hadd : (0 <= inject_Z (now - lastRefill rl) * refillRate rl)%Q).
  { apply Qmult_le_0_compat; [apply inject_Z_nonneg; lia | exact Hr]. }
  repeat split.
  - exact Hr.
  - apply Q.min_glb; lra.
  - apply Q.le_min_l.
  - lia.
Qed.

Lemma tryAcquire_sound t now rl :
  sound t rl -> t <= now -> sound now (snd (tryAcquire now rl)).
Proof.
  intros Hs Ht. pose proof (refill_sound t now rl Hs Ht) as (Hr & (H0 & Hmax) & Hl).
  unfold tryAcquire. destruct (Qleb 1 (tokens (refill now rl))) eqn:E; simpl.
  - apply Qleb_le in E. unfold sound, bounded; simpl. simpl in *. repeat split; try lra; try assumption.
  - unfold sound, bounded. repeat split; assumption.
Qed.

Lemma last_cons_default (a t : Z) l : List.last (a :: l) t = List.last l a.
Proof.
  revert a t. induction l as [|b l IH]; intros a t; [reflexivity|].
  change (List.last (a :: b :: l) t) with (List.last (b :: l) t).
  rewrite (IH b t), (IH b a). reflexivity.
Qed.

Lemma nondecreasing_app t l1 l2 :
  nondecreasing t (l1 ++ l2) <-> nondecreasing t l1 /\ nondecreasing (List.last l1 t) l2.
Proof.
  revert t. induction l1 as [|a l1 IH]; intros t.
  - simpl. tauto.
  - rewrite last_cons_default.
    change ((a :: l1) ++ l2) with (a :: (l1 ++ l2)).
    cbn [nondecreasing]. rewrite IH. tauto.
Qed.

Lemma nondecreasing_last t l : nondecreasing t l -> t <= List.last l t.
Proof.
  revert t. induction l as [|a l IH]; intros t; [simpl; lia|].
  intros [Ha Hl]. specialize (IH a Hl). rewrite last_cons_default. lia.
Qed.





(** A run of the ESPN provider's limiter (100 requests per minute). *)
Definition espn_limiter : RateLimiterConfig :=
  {| maxRequests := 100; windowMs := 60000 |}.






End RateLimiterProps.

(** ** Circuit breaker *)

Module CircuitBreakerProps.
Import CircuitBreaker.

(** The configuration of the specification's example:
    [minimumRequests = 5], [failureThreshold = 50]; the other two settings
    are free. *)
Definition config_5_50 (resetTimeout : Z) (successThreshold : option Z)
    : CircuitBreakerConfig :=
  {| failureThreshold := 50; minimumRequests := 5;
     resetTimeout := resetTimeout; successThreshold := successThreshold |}.

Lemma new_config_5_50 resetTimeout successThreshold :
  new (config_5_50 resetTimeout successThreshold)
  = Some {| config := config_5_50 resetTimeout successThreshold; state := CLOSED;
            failureCount := 0; successCount := 0; requestCount := 0;
            lastFailureTime := 0; nextAttemptTime := 0 |}.
Proof. reflexivity. Qed.

(** In [OPEN], before [nextAttemptTime], [allowRequest] answers false and
    changes nothing, however often it is asked. *)
Lemma allowRequests_open_early nows : forall cb,
  state cb = OPEN ->
  Forall (fun now => now < nextAttemptTime cb) nows ->
  allowRequests nows cb = (List.map (fun _ => false) nows, cb).
Proof.
  induction nows as [|now nows IH]; intros cb Hopen Hearly; [reflexivity|].
  apply Forall_cons_1 in Hearly as [Hnow Hrest].
  cbn [allowRequests List.map]. unfold allowRequest. rewrite Hopen.
  destruct (nextAttemptTime cb <=? now) eqn:E; [apply Z.leb_le in E; lia|].
  rewrite (IH cb Hopen Hrest). reflexivity.
Qed.

(** What five records leave behind when the last three are failures. *)
Lemma five_records_trailing_failures resetTimeout successThreshold cb0
    r1 r2 t3 t3' t4 t4' t5 t5' :
  new (config_5_50 resetTimeout successThreshold) = Some cb0 ->
  let cb := recordAll [r1; r2; Failure t3 t3'; Failure t4 t4'; Failure t5 t5'] cb0 in
  state cb = OPEN /\ nextAttemptTime cb = t5' + resetTimeout.
Proof.
  rewrite new_config_5_50. intros [= <-].
  destruct r1 as [|t1 t1'], r2 as [|t2 t2']; split; reflexivity.
Qed.

(** C3, as the code has it.  With [minimumRequests = 5] and
    [failureThreshold = 50], after five recorded requests on a fresh breaker
    of which the last three are failures, the circuit is open, and
    [allowRequest] answers false (leaving the breaker as it is) at every
    clock reading before the opening time plus [resetTimeout]. *)
Theorem opens_after_trailing_failures resetTimeout successThreshold cb0
    r1 r2 t3 t3' t4 t4' t5 t5' nows :
  new (config_5_50 resetTimeout successThreshold) = Some cb0 ->
  Forall (fun now => now < t5' + resetTimeout) nows ->
  let cb := recordAll [r1; r2; Failure t3 t3'; Failure t4 t4'; Failure t5 t5'] cb0 in
  state cb = OPEN /\
  nextAttemptTime cb = t5' + resetTimeout /\
  allowRequests nows cb = (List.map (fun _ => false) nows, cb).
Proof.
  intros Hnew Hearly cb.
  destruct (five_records_trailing_failures resetTimeout successThreshold cb0
              r1 r2 t3 t3' t4 t4' t5 t5' Hnew) as [Hopen Hnext].
  fold cb in Hopen, Hnext. repeat split; [exact Hopen | exact Hnext |].
  apply allowRequests_open_early; [exact Hopen | now rewrite Hnext].
Qed.

Lemma opens_after_trailing_failures_witness :
  let cb0 := {| config := config_5_50 60000 None; state := CLOSED;
                failureCount := 0; successCount := 0; requestCount := 0;
                lastFailureTime := 0; nextAttemptTime := 0 |} in
  let cb := recordAll [Success; Failure 10 10; Failure 20 20; Failure 30 30;
                       Failure 40 40] cb0 in
  state cb = OPEN /\
  nextAttemptTime cb = 40 + 60000 /\
  allowRequests [50; 30000; 60039] cb = ([false; false; false], cb).
Proof.
  apply (opens_after_trailing_failures 60000 None _ Success (Failure 10 10)
           20 20 30 30 40 40 [50; 30000; 60039]).
  - reflexivity.
  - repeat constructor.
Defined.

(** C3 as stated fails: three failures among five records do not open the
    circuit when a success follows them, since [recordSuccess] resets
    [failureCount] and only [recordFailure] looks at the failure rate. *)
Lemma three_failures_then_successes :
  let cb0 := {| config := config_5_50 60000 None; state := CLOSED;
                failureCount := 0; successCount := 0; requestCount := 0;
                lastFailureTime := 0; nextAttemptTime := 0 |} in
  let rs := [Failure 10 10; Failure 20 20; Failure 30 30; Success; Success] in
  new (config_5_50 60000 None) = Some cb0 /\
  length rs = 5%nat /\
  (3 <= length (List.filter isFailure rs))%nat /\
  state (recordAll rs cb0) = CLOSED /\
  fst (allowRequest 40 (recordAll rs cb0)) = true.
Proof. repeat split; simpl; lia. Qed.

(** Nor when the failures are not consecutive at the end. *)
Lemma three_failures_interleaved :
  let cb0 := {| config := config_5_50 60000 None; state := CLOSED;
                failureCount := 0; successCount := 0; requestCount := 0;
                lastFailureTime := 0; nextAttemptTime := 0 |} in
  let rs := [Failure 10 10; Success; Failure 20 20; Success; Failure 30 30] in
  (3 <= length (List.filter isFailure rs))%nat /\
  state (recordAll rs cb0) = CLOSED /\
  fst (allowRequest 40 (recordAll rs cb0)) = true.
Proof. repeat split; simpl; lia. Qed.

(** Five records on a fresh breaker open the circuit exactly when the last
    three are failures. *)
Lemma five_records_open_iff resetTimeout successThreshold cb0 r1 r2 r3 r4 r5 :
  new (config_5_50 resetTimeout successThreshold) = Some cb0 ->
  state (recordAll [r1; r2; r3; r4; r5] cb0) = OPEN <->
  isFailure r3 && isFailure r4 && isFailure r5 = true.
Proof.
  rewrite new_config_5_50. intros [= <-].
  destruct r1, r2, r3, r4, r5; split; intros H;
    solve [reflexivity | discriminate H].
Qed.

(** C4.  In [OPEN] with [now >= nextAttemptTime], [allowRequest] answers
    true and moves to [HALF_OPEN] with [successCount = 0], changing nothing
    else; and a [recordFailure] in [HALF_OPEN] moves back to [OPEN] with
    [nextAttemptTime] the reading of that transition plus [resetTimeout]. *)
Theorem half_open_probe cb now t t' :
  state cb = OPEN ->
  nextAttemptTime cb <= now ->
  let probe := snd (allowRequest now cb) in
  fst (allowRequest now cb) = true /\
  probe = transitionToHalfOpen cb /\
  state probe = HALF_OPEN /\
  successCount probe = 0 /\
  state (recordFailure t t' probe) = OPEN /\
  nextAttemptTime (recordFailure t t' probe) = t' + resetTimeout (config cb).
Proof.
  intros Hopen Hdue. unfold allowRequest. rewrite Hopen.
  destruct (nextAttemptTime cb <=? now) eqn:E; [|apply Z.leb_gt in E; lia].
  cbn [fst snd]. repeat split.
Qed.

Lemma half_open_probe_witness :
  let cb := {| config := config_5_50 60000 None; state := OPEN;
               failureCount := 3; successCount := 2; requestCount := 5;
               lastFailureTime := 40; nextAttemptTime := 60040 |} in
  let probe := snd (allowRequest 60040 cb) in
  fst (allowRequest 60040 cb) = true /\
  probe = transitionToHalfOpen cb /\
  state probe = HALF_OPEN /\
  successCount probe = 0 /\
  state (recordFailure 60050 60051 probe) = OPEN /\
  nextAttemptTime (recordFailure 60050 60051 probe) = 60051 + 60000.
Proof.
  intros cb.
  assert (Hdue : nextAttemptTime cb <= 60040) by (simpl; lia).
  exact (half_open_probe cb 60040 60050 60051 eq_refl Hdue).
Defined.

(** Any breaker in [HALF_OPEN] reopens on a failure. *)
Lemma recordFailure_half_open cb t t' :
  state cb = HALF_OPEN ->
  state (recordFailure t t' cb) = OPEN /\
  nextAttemptTime (recordFailure t t' cb) = t' + resetTimeout (config cb).
Proof. intros H. unfold recordFailure; simpl. rewrite H. split; reflexivity. Qed.

End CircuitBreakerProps.

(** ** Provider: [executeRequest] *)

Module ProviderProps.
Import Provider.

(** What [executeRequest] does when the breaker denies admission: the
    [ProviderUnavailableError] is thrown inside the [try] block, so the
    [catch] block records a failure against the breaker and wraps the
    error.  The limiter is not touched and the request is not made. *)
Lemma executeRequest_denied {T} op (request : Eff.result Error T) clk p :
  CircuitBreaker.state (circuitBreaker p) = CircuitBreaker.OPEN ->
  atAllow clk < CircuitBreaker.nextAttemptTime (circuitBreaker p) ->
  executeRequest op request clk p
  = (Eff.Thrown {| providerName := name p; operation := op;
                   originalError :=
                     ProviderUnavailableError (name p +:+ " circuit breaker is open") |},
     set_circuitBreaker
       (CircuitBreaker.recordFailure (atFailure clk) (atReopen clk) (circuitBreaker p)) p).
Proof.
  intros Hopen Hearly.
  unfold executeRequest, Eff.try_catch, Eff.bind, allowRequest, Eff.lift.
  unfold CircuitBreaker.allowRequest. rewrite Hopen.
  destruct (CircuitBreaker.nextAttemptTime (circuitBreaker p) <=? atAllow clk) eqn:E;
    [apply Z.leb_le in E; lia|].
  destruct p as [nm rl cb]; reflexivity.
Qed.

Lemma recordFailure_counts now now' cb :
  CircuitBreaker.failureCount (CircuitBreaker.recordFailure now now' cb)
  = CircuitBreaker.failureCount cb + 1 /\
  CircuitBreaker.requestCount (CircuitBreaker.recordFailure now now' cb)
  = CircuitBreaker.requestCount cb + 1.
Proof.
  unfold CircuitBreaker.recordFailure; simpl.
  destruct (CircuitBreaker.state cb); simpl;
    repeat match goal with |- context [if ?b then _ else _] => destruct b end;
    split; reflexivity.
Qed.

(** The ESPN provider (100 requests per minute; breaker at 50 percent over
    at least 5 requests, one minute reset), its circuit opened at time 5 by
    five failed requests. *)
Definition espn_breaker : CircuitBreaker.CircuitBreakerConfig :=
  {| CircuitBreaker.failureThreshold := 50;
     CircuitBreaker.minimumRequests := 5;
     CircuitBreaker.resetTimeout := 60000;
     CircuitBreaker.successThreshold := None |}.

Definition espn_open : Provider.t :=
  {| name := "ESPN";
     rateLimiter :=
       RateLimiter.new {| RateLimiter.maxRequests := 100;
                          RateLimiter.windowMs := 60000 |} 0;
     circuitBreaker :=
       {| CircuitBreaker.config := espn_breaker;
          CircuitBreaker.state := CircuitBreaker.OPEN;
          CircuitBreaker.failureCount := 5;
          CircuitBreaker.successCount := 0;
          CircuitBreaker.requestCount := 5;
          CircuitBreaker.lastFailureTime := 5;
          CircuitBreaker.nextAttemptTime := 60005 |} |}.

Definition at_1000 : Clock :=
  {| atAllow := 1000; acquireStart := 1000; acquireRounds := [(1000, 1000)];
     atFailure := 1000; atReopen := 1000 |}.

(** C1 on the code.  A call made at time 1000, while the circuit is open
    until 60005, is denied; it is rejected with a [ProviderError] (wrapping
    the unavailable error), and the denial itself is recorded as a failure:
    [failureCount] and [requestCount] go from 5 to 6 and the circuit's
    [nextAttemptTime] is pushed from 60005 to 61000. *)
Theorem denied_call_is_recorded_as_failure :
  fst (CircuitBreaker.allowRequest 1000 (circuitBreaker espn_open)) = false /\
  let '(outcome, p') :=
    executeRequest "getGames" (Eff.Returned tt) at_1000 espn_open in
  outcome = Eff.Thrown {| providerName := "ESPN"; operation := "getGames";
                          originalError :=
                            ProviderUnavailableError "ESPN circuit breaker is open" |} /\
  CircuitBreaker.failureCount (circuitBreaker espn_open) = 5 /\
  CircuitBreaker.failureCount (circuitBreaker p') = 6 /\
  CircuitBreaker.requestCount (circuitBreaker espn_open) = 5 /\
  CircuitBreaker.requestCount (circuitBreaker p') = 6 /\
  CircuitBreaker.nextAttemptTime (circuitBreaker espn_open) = 60005 /\
  CircuitBreaker.nextAttemptTime (circuitBreaker p') = 61000 /\
  rateLimiter p' = rateLimiter espn_open.
Proof. vm_compute. repeat split. Qed.

(** The counters are incremented on every denied call. *)
Lemma denied_call_increments_counters {T} op (request : Eff.result Error T) clk p :
  CircuitBreaker.state (circuitBreaker p) = CircuitBreaker.OPEN ->
  atAllow clk < CircuitBreaker.nextAttemptTime (circuitBreaker p) ->
  let p' := snd (executeRequest op request clk p) in
  CircuitBreaker.failureCount (circuitBreaker p')
  = CircuitBreaker.failureCount (circuitBreaker p) + 1 /\
  CircuitBreaker.requestCount (circuitBreaker p')
  = CircuitBreaker.requestCount (circuitBreaker p) + 1.
Proof.
  intros Hopen Hearly. rewrite (executeRequest_denied op request clk p Hopen Hearly).
  apply recordFailure_counts.
Qed.

End ProviderProps.

(** ** In-memory cache *)

Module CacheProps.
Import Cache.

Section WithValue.
Context {V : Type}.
Implicit Types (cache : Cache.t V) (key : string) (v : V).

Lemma get_live cache key entry now :
  cache !! key = Some entry ->
  (inject_Z now <= expiresAt entry)%Q ->
  get key now cache = (Some (value entry), cache).
Proof.
  intros Hk Hle. unfold get, expired. rewrite Hk.
  apply Qltb_ge in Hle. rewrite Hle. reflexivity.
Qed.

Lemma get_expired cache key entry now :
  cache !! key = Some entry ->
  (expiresAt entry < inject_Z now)%Q ->
  get key now cache = (None, delete key cache).
Proof.
  intros Hk Hlt. unfold get, expired. rewrite Hk.
  apply Qltb_lt in Hlt. rewrite Hlt. reflexivity.
Qed.

Lemma get_absent cache key now :
  cache !! key = None -> get key now cache = (None, cache).
Proof. intros Hk. unfold get. rewrite Hk. reflexivity. Qed.

Lemma lookup_set cache key v ttl now now' :
  set key v ttl now now' cache !! key
  = Some {| value := v; expiresAt := (inject_Z now + ttl * 1000)%Q; cachedAt := now' |}.
Proof. unfold set. apply lookup_insert_eq. Qed.

Lemma lookup_set_ne cache key key' v ttl now now' :
  key <> key' -> set key v ttl now now' cache !! key' = cache !! key'.
Proof. intros Hne. unfold set. now apply lookup_insert_ne. Qed.

(** Setting a key twice leaves what the second [set] alone leaves. *)
Lemma set_set cache key v v' ttl ttl' t0 t0' t1 t1' :
  set key v' ttl' t1 t1' (set key v ttl t0 t0' cache) = set key v' ttl' t1 t1' cache.
Proof. unfold set. apply insert_insert_eq. Qed.

(** C6.  [get] returns the stored value of an entry with
    [now <= expiresAt] and leaves the cache as it is; it returns null and
    removes the entry when [now > expiresAt].  [set] overwrites whatever the
    key held with the new value and [expiresAt = now + ttlSeconds * 1000],
    leaving other keys alone.  Consequently, once a key is set again, a
    [get] at a time [t] past the first expiry point and not past the second
    returns the new value, where without the second [set] it returns null. *)
Theorem cache_contract cache key entry v v' ttl ttl' now t0 t0' t1 t1' t :
  (cache !! key = Some entry -> (inject_Z now <= expiresAt entry)%Q ->
   get key now cache = (Some (value entry), cache)) /\
  (cache !! key = Some entry -> (expiresAt entry < inject_Z now)%Q ->
   get key now cache = (None, delete key cache)) /\
  set key v ttl t0 t0' cache !! key
  = Some {| value := v; expiresAt := (inject_Z t0 + ttl * 1000)%Q; cachedAt := t0' |} /\
  (forall key', key <> key' -> set key v ttl t0 t0' cache !! key' = cache !! key') /\
  ((inject_Z t0 + ttl * 1000 < inject_Z t)%Q ->
   (inject_Z t <= inject_Z t1 + ttl' * 1000)%Q ->
   fst (get key t (set key v ttl t0 t0' cache)) = None /\
   fst (get key t (set key v' ttl' t1 t1' (set key v ttl t0 t0' cache))) = Some v').
Proof.
  split; [apply get_live|]. split; [apply get_expired|].
  split; [apply lookup_set|]. split; [intros key'; apply lookup_set_ne|].
  intros Hpast Hbefore. split.
  - rewrite (get_expired _ key _ t (lookup_set cache key v ttl t0 t0') Hpast).
    reflexivity.
  - rewrite (get_live _ key _ t (lookup_set _ key v' ttl' t1 t1') Hbefore).
    reflexivity.
Qed.

End WithValue.

(** The scenario of the cache tests: a value cached for 50 ms at time 0 is
    set again for 10 s at time 30, and read at time 80. *)
Lemma cache_contract_witness :
  let entry := {| value := "value1"; expiresAt := 50%Q; cachedAt := 0 |} in
  let cache : Cache.t string := {["key" := entry]} in
  get "key" 30 cache = (Some "value1", cache) /\
  get "key" 80 cache = (None, delete "key" cache) /\
  fst (get "key" 80 (set "key" "value1" (50 # 1000) 0 0 cache)) = None /\
  fst (get "key" 80 (set "key" "value2" 10 30 30 (set "key" "value1" (50 # 1000) 0 0 cache)))
  = Some "value2".
Proof.
  intros entry cache.
  assert (Hk : cache !! "key" = Some entry) by apply lookup_singleton_eq.
  assert (Hlive : (inject_Z 30 <= expiresAt entry)%Q) by (unfold Qle; simpl; lia).
  assert (Hdead : (expiresAt entry < inject_Z 80)%Q) by (unfold Qlt; simpl; lia).
  assert (Hpast : (inject_Z 0 + (50 # 1000) * 1000 < inject_Z 80)%Q)
    by (unfold Qlt; simpl; lia).
  assert (Hbefore : (inject_Z 80 <= inject_Z 30 + 10 * 1000)%Q)
    by (unfold Qle; simpl; lia).
  pose proof (cache_contract cache "key" entry "value1" "value2" (50 # 1000) 10
                30 0 0 30 30 80) as (Hget & _ & _ & _ & Hre).
  pose proof (cache_contract cache "key" entry "value1" "value2" (50 # 1000) 10
                80 0 0 30 30 80) as (_ & Hgone & _ & _ & _).
  destruct (Hre Hpast Hbefore) as [Hnone Hsome].
  exact (conj (Hget Hk Hlive) (conj (Hgone Hk Hdead) (conj Hnone Hsome))).
Defined.

End CacheProps.

(** ** In-memory event bus *)

Module EventBusProps.
Import EventBus.

Section WithWorld.
Context {D W : Type}.
Implicit Types (s : World D W) (hs : list (EventHandler D W)) (event : DomainEvent D).

(** The handlers' state after each handler of [hs], in order, has run on
    [event], whatever each one's outcome. *)
Definition run_all hs event (w : W) : W :=
  fold_left (fun w h => snd (run h event w)) hs w.

(** One guarded call: the handler runs, and the call returns. *)
Lemma guarded_invoke message (h : EventHandler D W) event s :
  let '(r, s') :=
    Eff.try_catch (invoke h event) (fun error => console_error message error) s in
  r = Eff.Returned tt /\ bus s' = bus s /\ world s' = snd (run h event (world s)).
Proof.
  unfold Eff.try_catch, invoke, console_error, Eff.modify.
  destruct (run h event (world s)) as [[|error] w]; simpl; auto.
Qed.

(** The dispatch loop returns, having run every handler. *)
Lemma dispatch_returns message hs event : forall s,
  let '(r, s') := dispatch message hs event s in
  r = Eff.Returned tt /\ bus s' = bus s /\ world s' = run_all hs event (world s).
Proof.
  induction hs as [|h hs IH]; intros s; [simpl; auto|].
  cbn [dispatch]. unfold Eff.bind.
  pose proof (guarded_invoke message h event s) as Hh.
  destruct (Eff.try_catch (invoke h event) _ s) as [r1 s1].
  destruct Hh as (-> & Hbus & Hworld).
  specialize (IH s1). destruct (dispatch message hs event s1) as [r2 s2].
  destruct IH as (-> & Hbus2 & Hworld2).
  repeat split; [congruence|].
  rewrite Hworld2, Hworld. reflexivity.
Qed.

(** C8.  [emit] never throws and is never left pending by its handlers'
    failures: whatever the handlers registered for the event do, it
    returns, every regular handler and then every once handler of the event
    has been run (in registration order), the regular handlers are kept and
    the once handlers of the event are removed. *)
Theorem emit_never_throws name (d : D) now s :
  let event := {| eventName := name; occurredAt := now; data := d |} in
  let regular := default [] (handlers (bus s) !! name) in
  let once := default [] (onceHandlers (bus s) !! name) in
  let '(r, s') := emit name d now s in
  r = Eff.Returned tt /\
  world s' = run_all (regular ++ once) event (world s) /\
  handlers (bus s') = handlers (bus s) /\
  onceHandlers (bus s') = delete name (onceHandlers (bus s)).
Proof.
  intros event regular once. unfold emit, Eff.bind, Eff.get.
  fold event. unfold run_all. rewrite fold_left_app. fold (run_all regular event (world s)).
  assert (Hreg : exists s1,
    match handlers (bus s) !! name with
    | Some regularHandlers =>
        dispatch ("Error in event handler for " +:+ name +:+ ":") regularHandlers event
    | None => Eff.ret tt
    end s = (Eff.Returned tt, s1) /\
    bus s1 = bus s /\ world s1 = run_all regular event (world s)).
  { subst regular. destruct (handlers (bus s) !! name) as [hs|]; simpl.
    - pose proof (dispatch_returns ("Error in event handler for " +:+ name +:+ ":")
                    hs event s) as H.
      destruct (dispatch _ hs event s) as [r s1]. destruct H as (-> & Hb & Hw).
      exists s1. auto.
    - exists s. auto. }
  destruct Hreg as (s1 & -> & Hb1 & Hw1).
  subst once. rewrite Hb1.
  destruct (onceHandlers (bus s) !! name) as [hs|] eqn:Honce; simpl.
  - pose proof (dispatch_returns ("Error in once handler for " +:+ name +:+ ":")
                  hs event s1) as H.
    destruct (dispatch _ hs event s1) as [r s2]. destruct H as (-> & Hb & Hw).
    unfold delete_once, Eff.modify; simpl.
    rewrite Hb, Hb1, Hw, Hw1. auto.
  - rewrite Hb1, Hw1, (delete_id _ _ Honce). auto.
Qed.

End WithWorld.

(** The scenario of the event-bus tests: a handler that fails and one that
    counts its calls, both registered for the event; the counter still
    counts, the failure is logged and [emit] returns.  Likewise with the
    failing handler registered once. *)
Definition failing : EventHandler unit nat :=
  {| hid := 1; run := fun _ w => (Failed "Handler error", w) |}.

Definition counting : EventHandler unit nat :=
  {| hid := 2; run := fun _ w => (Completed, S w) |}.

Example emit_isolates_failing_handler :
  let b := on "test.event" counting (on "test.event" failing new) in
  let '(r, s') := emit "test.event" tt 0 {| bus := b; console := []; world := 0%nat |} in
  r = Eff.Returned tt /\ world s' = 1%nat /\
  console s' = ["Error in event handler for test.event: Handler error"].
Proof. vm_compute. auto. Qed.

Example emit_isolates_failing_once_handler :
  let b := on "test.event" counting (once "test.event" failing new) in
  let '(r, s') := emit "test.event" tt 0 {| bus := b; console := []; world := 0%nat |} in
  r = Eff.Returned tt /\ world s' = 1%nat /\
  console s' = ["Error in once handler for test.event: Handler error"] /\
  getSubscriberCount "test.event" (bus s') = 1%nat.
Proof. vm_compute. auto. Qed.

End EventBusProps.

(** ** Scoreboard TTL policy *)

Module ScoreboardProps.
Import Scoreboard.

Lemma filter_length_pos {A} (p : A -> bool) (l : list A) :
  (0 <? Z.of_nat (length (List.filter p l))) = true <-> Exists (fun x => p x = true) l.
Proof.
  rewrite Z.ltb_lt. induction l as [|x l IH]; simpl.
  - split; [lia | intros H; inversion H].
  - destruct (p x) eqn:E; simpl.
    + split; [intros _; now apply Exists_cons_hd | lia].
    + rewrite IH. split; [apply Exists_cons_tl |].
      intros H. apply Exists_cons in H as [H|H]; [congruence | exact H].
Qed.

Lemma no_live_count games :
  Forall (fun g => Game.isLive g = false) games ->
  (0 <? Z.of_nat (length (List.filter Game.isLive games))) = false.
Proof.
  intros Hall. destruct (0 <? _) eqn:E; [|reflexivity].
  apply filter_length_pos in E. apply Exists_exists in E as (g & Hin & Hlive).
  rewrite Forall_forall in Hall. specialize (Hall g Hin). congruence.
Qed.

Lemma forallb_Forall {A} (p : A -> bool) (l : list A) :
  forallb p l = true <-> Forall (fun x => p x = true) l.
Proof.
  induction l as [|x l IH]; simpl.
  - split; [constructor | reflexivity].
  - rewrite andb_true_iff, IH, Forall_cons. reflexivity.
Qed.

(** C9.  For the result [execute] builds from an empty list of games,
    [calculateCacheTTL] returns 3600 (not 300, not 60). *)
Theorem empty_week_ttl params now :
  calculateCacheTTL (buildResult params [] now) = 3600.
Proof. reflexivity. Qed.

(** The same for any result without games whose live count is not
    positive. *)
Lemma empty_games_ttl result :
  games result = [] -> liveGameCount (metadata result) <= 0 ->
  calculateCacheTTL result = 3600.
Proof.
  intros Hg Hl. unfold calculateCacheTTL. rewrite Hg.
  destruct (0 <? liveGameCount (metadata result)) eqn:E; [apply Z.ltb_lt in E; lia|].
  reflexivity.
Qed.

(** C5 as stated fails on the empty result: no game is live and every game
    is neither live nor completed, yet the TTL is 3600, not 300. *)
Lemma all_scheduled_empty_is_not_300 :
  let params := {| season := 2025; week := 10; seasonType := None |} in
  let result := buildResult params [] 0 in
  Forall (fun g => Game.isLive g = false) (games result) /\
  Forall (fun g => Game.isLive g = false /\ Game.isCompleted g = false) (games result) /\
  calculateCacheTTL result = 3600 /\
  calculateCacheTTL result <> 300.
Proof.
  simpl. split; [constructor|]. split; [constructor|].
  split; [reflexivity | discriminate].
Qed.

(** C5, as the code has it.  For the result [execute] builds from the
    fetched games, [calculateCacheTTL] is 30 if some game is live; 3600 if
    no game is live and every game is completed; 300 if no game is live,
    there is at least one game and every game is neither live nor
    completed; and 60 in every other case. *)
Theorem scoreboard_ttl_policy params games now :
  let ttl := calculateCacheTTL (buildResult params games now) in
  (Exists (fun g => Game.isLive g = true) games -> ttl = 30) /\
  (Forall (fun g => Game.isLive g = false) games ->
   Forall (fun g => Game.isCompleted g = true) games -> ttl = 3600) /\
  (Forall (fun g => Game.isLive g = false) games ->
   games <> [] ->
   Forall (fun g => Game.isLive g = false /\ Game.isCompleted g = false) games ->
   ttl = 300) /\
  (~ Exists (fun g => Game.isLive g = true) games ->
   ~ Forall (fun g => Game.isCompleted g = true) games ->
   ~ Forall (fun g => Game.isLive g = false /\ Game.isCompleted g = false) games ->
   ttl = 60).
Proof.
  intros ttl. subst ttl. unfold calculateCacheTTL, buildResult; cbn [metadata liveGameCount Scoreboard.games].
  repeat split.
  - intros Hlive. apply filter_length_pos in Hlive. rewrite Hlive. reflexivity.
  - intros Hno Hall. rewrite (no_live_count _ Hno).
    apply forallb_Forall in Hall. rewrite Hall. reflexivity.
  - intros Hno Hne Hall. rewrite (no_live_count _ Hno).
    destruct (forallb Game.isCompleted games) eqn:Ec.
    + apply forallb_Forall in Ec. destruct games as [|g games]; [congruence|].
      apply Forall_cons_1 in Ec as [Ec _]. apply Forall_cons_1 in Hall as [[_ Hg] _].
      congruence.
    + assert (Hs : forallb (fun g => negb (Game.isLive g) && negb (Game.isCompleted g)) games
                   = true).
      { apply forallb_Forall. eapply Forall_impl; [exact Hall|].
        intros g [-> ->]. reflexivity. }
      rewrite Hs. reflexivity.
  - intros Hno Hnc Hns.
    destruct (0 <? _) eqn:El; [apply filter_length_pos in El; contradiction|].
    destruct (forallb Game.isCompleted games) eqn:Ec;
      [apply forallb_Forall in Ec; contradiction|].
    destruct (forallb (fun g => negb (Game.isLive g) && negb (Game.isCompleted g)) games)
      eqn:Es; [|reflexivity].
    exfalso. apply Hns. apply forallb_Forall in Es.
    eapply Forall_impl; [exact Es|].
    intros g Hg. simpl in Hg. apply andb_true_iff in Hg as [H1 H2].
    apply negb_true_iff in H1, H2. auto.
Qed.

Definition game_with (i : string) (st : Game.GameStatus) : Game.t :=
  {| Game.id := i; Game.status := st; Game.scheduledAt := 0 |}.

Lemma scoreboard_ttl_policy_witness :
  let params := {| season := 2025; week := 10; seasonType := None |} in
  let ttl games := calculateCacheTTL (buildResult params games 0) in
  ttl [game_with "1" Game.FINAL; game_with "2" Game.IN_PROGRESS] = 30 /\
  ttl [game_with "1" Game.FINAL; game_with "2" Game.FINAL_OVERTIME] = 3600 /\
  ttl [game_with "1" Game.SCHEDULED; game_with "2" Game.POSTPONED] = 300 /\
  ttl [game_with "1" Game.FINAL; game_with "2" Game.SCHEDULED] = 60.
Proof.
  intros params ttl.
  pose proof (scoreboard_ttl_policy params
                [game_with "1" Game.FINAL; game_with "2" Game.IN_PROGRESS] 0) as (H30 & _).
  pose proof (scoreboard_ttl_policy params
                [game_with "1" Game.FINAL; game_with "2" Game.FINAL_OVERTIME] 0)
    as (_ & H3600 & _).
  pose proof (scoreboard_ttl_policy params
                [game_with "1" Game.SCHEDULED; game_with "2" Game.POSTPONED] 0)
    as (_ & _ & H300 & _).
  pose proof (scoreboard_ttl_policy params
                [game_with "1" Game.FINAL; game_with "2" Game.SCHEDULED] 0)
    as (_ & _ & _ & H60).
  split; [apply H30; apply Exists_cons_tl, Exists_cons_hd; reflexivity|].
  split; [apply H3600; repeat constructor|].
  split; [apply H300; [repeat constructor | discriminate | repeat constructor]|].
  apply H60.
  - intros H. apply Exists_cons in H as [H|H]; [discriminate|].
    apply Exists_cons in H as [H|H]; [discriminate | inversion H].
  - intros H. apply Forall_cons_1 in H as [_ H]. apply Forall_cons_1 in H as [H _].
    discriminate.
  - intros H. apply Forall_cons_1 in H as [[_ H] _]. discriminate.
Defined.

End ScoreboardProps.

(** ** Array sort *)

Module JsArrayProps.
Import JsArray.

Section Sort.
Context {A : Type} (compareFn : A -> A -> Z).

(** [x] may stand before [y]. *)
Definition ordered (x y : A) : Prop := compareFn x y <= 0.

(** A consistent comparator leaves no pair unordered. *)
Hypothesis compareFn_total : forall x y, 0 < compareFn x y -> compareFn y x <= 0.

Lemma insert_Permutation x l : Permutation (insert compareFn x l) (x :: l).
Proof.
  induction l as [|y l IH]; simpl; [reflexivity|].
  destruct (compareFn x y <=? 0); [reflexivity|].
  rewrite IH. apply perm_swap.
Qed.

Lemma sort_Permutation l : Permutation (sort compareFn l) l.
Proof.
  induction l as [|x l IH]; simpl; [reflexivity|].
  unfold sort in *. simpl. rewrite insert_Permutation. now constructor.
Qed.

Lemma insert_HdRel a x l :
  ordered a x -> HdRel ordered a l -> HdRel ordered a (insert compareFn x l).
Proof.
  intros Hax Hal. destruct l as [|y l]; simpl; [now constructor|].
  destruct (compareFn x y <=? 0); constructor; [exact Hax|].
  now inversion Hal.
Qed.

Lemma insert_Sorted x l : Sorted ordered l -> Sorted ordered (insert compareFn x l).
Proof.
  induction 1 as [|y l Hl IH Hhd]; simpl; [repeat constructor|].
  destruct (compareFn x y <=? 0) eqn:E.
  - apply Z.leb_le in E. repeat constructor; assumption.
  - apply Z.leb_gt in E. constructor; [exact IH|].
    apply insert_HdRel; [apply compareFn_total; exact E | exact Hhd].
Qed.

Lemma sort_Sorted l : Sorted ordered (sort compareFn l).
Proof.
  induction l as [|x l IH]; [constructor|].
  unfold sort in *. simpl. now apply insert_Sorted.
Qed.

End Sort.

End JsArrayProps.

(** ** Schedule *)

Module ScheduleProps.
Import Schedule.

(** Neither live nor completed. *)
Definition unplayed (g : Game.t) : bool :=
  negb (Game.isLive g) && negb (Game.isCompleted g).

(** Ascending by scheduled time. *)
Definition earlier_or_same (a b : Game.t) : Prop :=
  Game.scheduledAt a <= Game.scheduledAt b.

Lemma Sorted_weaken {A} (R S : A -> A -> Prop) (l : list A) :
  (forall x y, R x y -> S x y) -> Sorted R l -> Sorted S l.
Proof.
  intros HRS. induction 1 as [|a l Hl IH Hhd]; constructor; [exact IH|].
  destruct Hhd; constructor; auto.
Qed.

Lemma sort_byScheduledAt_Sorted l :
  StronglySorted earlier_or_same (JsArray.sort byScheduledAt l).
Proof.
  apply Sorted_StronglySorted.
  - intros a b c. unfold earlier_or_same. lia.
  - apply (Sorted_weaken (JsArrayProps.ordered byScheduledAt)).
    + intros a b. unfold JsArrayProps.ordered, byScheduledAt, earlier_or_same. lia.
    + apply JsArrayProps.sort_Sorted. intros x y. unfold byScheduledAt. lia.
Qed.

(** The call does not answer from the cache: the key has no usable entry
    (absent or expired), or its entry is stale. *)
Definition miss_or_stale (params : GetScheduleParams) (clk : Clock) (env : Env) : Prop :=
  match fst (Cache.get (buildCacheKey params) (atGet clk) (cache env)) with
  | None => True
  | Some cached => shouldRefreshCache (atAge clk) cached = true
  end.

(** C7.  On a cache miss or a stale entry, [execute] returns an envelope
    whose games are exactly the games the repository returned that are
    neither live nor completed (as a multiset), in ascending order of
    [scheduledAt], with [fromCache = false] and [cachedAt] the time the
    result was built.  The repository is asked through [findByWeek], with
    the season, week and season type of the request, when the request names
    a week (other than 0), and through [findByFilter], with its season and
    season type, when it does not. *)
Theorem schedule_on_miss repo params clk env :
  miss_or_stale params clk env ->
  let result := fst (execute repo params clk env) in
  let fetched :=
    match week params with
    | Some w =>
        if w =? 0 then findByFilter repo (season params) (seasonType params)
        else findByWeek repo (season params) w (seasonType params)
    | None => findByFilter repo (season params) (seasonType params)
    end in
  Permutation (games result) (List.filter unplayed fetched) /\
  StronglySorted earlier_or_same (games result) /\
  fromCache result = false /\
  cachedAt (metadata result) = Some (atBuild clk).
Proof.
  unfold miss_or_stale, execute. intros Hmiss.
  destruct (Cache.get (buildCacheKey params) (atGet clk) (cache env)) as [cached cache1].
  cbn [fst] in Hmiss.
  assert (Hfresh :
    match cached with
    | Some c => if shouldRefreshCache (atAge clk) c then None else Some c
    | None => None
    end = None).
  { destruct cached as [c|]; [rewrite Hmiss|]; reflexivity. }
  rewrite Hfresh. cbn [fst games fromCache metadata cachedAt].
  assert (Hfetch :
    fetch repo params =
    match week params with
    | Some w =>
        if w =? 0 then findByFilter repo (season params) (seasonType params)
        else findByWeek repo (season params) w (seasonType params)
    | None => findByFilter repo (season params) (seasonType params)
    end).
  { unfold fetch, truthy_week. destruct (week params) as [w|]; [|reflexivity].
    destruct (w =? 0); reflexivity. }
  rewrite <- Hfetch.
  repeat split.
  - apply JsArrayProps.sort_Permutation.
  - apply sort_byScheduledAt_Sorted.
Qed.

Definition game_at (i : string) (st : Game.GameStatus) (t : Z) : Game.t :=
  {| Game.id := i; Game.status := st; Game.scheduledAt := t |}.

Definition week_10 : list Game.t :=
  [game_at "a" Game.SCHEDULED 300; game_at "b" Game.FINAL 100;
   game_at "c" Game.SCHEDULED 200; game_at "d" Game.IN_PROGRESS 150;
   game_at "e" Game.POSTPONED 200].

Definition sample_repo : Repository :=
  {| findByWeek := fun _ _ _ => week_10; findByFilter := fun _ _ => [] |}.

Definition sample_params : GetScheduleParams :=
  {| season := 2025; week := Some 10; seasonType := None |}.

Definition sample_clock : Clock :=
  {| atGet := 1000; atAge := 1000; atBuild := 1001; atSet := 1002; atSet' := 1002 |}.

Definition empty_env : Env := {| cache := ∅; emitted := [] |}.

(** Week 10 of the sample repository holds five games, of which [a], [c]
    and [e] are neither live nor completed. *)
Lemma schedule_on_miss_witness :
  let result := fst (execute sample_repo sample_params sample_clock empty_env) in
  Permutation (games result)
    [game_at "a" Game.SCHEDULED 300; game_at "c" Game.SCHEDULED 200;
     game_at "e" Game.POSTPONED 200] /\
  StronglySorted earlier_or_same (games result) /\
  fromCache result = false /\
  cachedAt (metadata result) = Some 1001.
Proof.
  exact (schedule_on_miss sample_repo sample_params sample_clock empty_env I).
Defined.

(** The same run, evaluated: ties keep the order of the fetched list. *)
Example schedule_sample_run :
  let '(result, env') := execute sample_repo sample_params sample_clock empty_env in
  games result = [game_at "c" Game.SCHEDULED 200; game_at "e" Game.POSTPONED 200;
                  game_at "a" Game.SCHEDULED 300] /\
  buildCacheKey sample_params = "schedule:2025:regular:10" /\
  emitted env' = [Fetched sample_params 3 300] /\
  Cache.expiresAt <$> (cache env' !! "schedule:2025:regular:10")
  = Some (inject_Z 1002 + inject_Z 300 * 1000)%Q.
Proof. vm_compute. auto. Qed.

End ScheduleProps.

(** ** Game details *)

Module GameDetailsProps.
Import GameDetails.

(** What the read at the start of [execute] does to the cache: nothing,
    unless the key holds an expired entry, which it removes. *)
Lemma get_frame {V} (cache : Cache.t V) key now :
  let cache' := snd (Cache.get key now cache) in
  (forall key', key' <> key -> cache' !! key' = cache !! key') /\
  (cache' = cache \/
   exists entry, cache !! key = Some entry /\ Cache.expired now entry = true /\
                 cache' = delete key cache).
Proof.
  unfold Cache.get. destruct (cache !! key) as [entry|] eqn:Hk; simpl.
  - destruct (Cache.expired now entry) eqn:He; simpl.
    + split; [intros key' Hne; now apply lookup_delete_ne | right; eauto].
    + split; [reflexivity | now left].
  - split; [reflexivity | now left].
Qed.

(** A cached result without a game is never usable. *)
Lemma null_game_not_usable now cached :
  game cached = None -> usable now (Some cached) = None.
Proof. intros H. unfold usable. rewrite H. reflexivity. Qed.

(** C10 as stated fails when the key holds an expired entry: the read
    evicts it, so the cache is not left unchanged.  Here a live game was
    cached at time 0 for 15 s, and at time 20000 the repository no longer
    knows it. *)
Definition kickoff : Game.t :=
  {| Game.id := "42"; Game.status := Game.IN_PROGRESS; Game.scheduledAt := 0 |}.

Definition stale_env : Env :=
  {| cache := {[ "game:42" :=
                   {| Cache.value := {| game := Some kickoff; fromCache := false;
                                        cachedAt := 0 |};
                      Cache.expiresAt := 15000%Q; Cache.cachedAt := 0 |} ]};
     emitted := [] |}.

Definition at_20000 : Clock :=
  {| atGet := 20000; atAge := 20000; atBuild := 20000; atSet := 20000; atSet' := 20000 |}.

Lemma not_found_evicts_expired_entry :
  let findById := fun _ : string => @None Game.t in
  let '(result, env') := execute findById {| gameId := "42" |} at_20000 stale_env in
  findById "42" = None /\
  game result = None /\ fromCache result = false /\
  is_Some (cache stale_env !! "game:42") /\
  cache env' !! "game:42" = None /\
  cache env' <> cache stale_env.
Proof.
  vm_compute. repeat split; eauto. intros H. discriminate H.
Qed.

(** C10, as the code has it.  When the call reaches the repository and
    [findById] returns null, [execute] returns
    [{ game: null, fromCache: false }] with a fresh [cachedAt], sets
    nothing in the cache and emits no event; the cache is what the initial
    read left: unchanged, or without the expired entry the key held.
    And whenever the cache yields a result whose game is null, the call
    reaches the repository instead of answering from the cache. *)
Theorem not_found_frame findById params clk env :
  let key := buildCacheKey (gameId params) in
  let cached := fst (Cache.get key (atGet clk) (cache env)) in
  let '(result, env') := execute findById params clk env in
  (usable (atAge clk) cached = None -> findById (gameId params) = None ->
   result = {| game := None; fromCache := false; cachedAt := atBuild clk |} /\
   emitted env' = emitted env /\
   (forall key', key' <> key -> cache env' !! key' = cache env !! key') /\
   (cache env' = cache env \/
    exists entry, cache env !! key = Some entry /\
                  Cache.expired (atGet clk) entry = true /\
                  cache env' = delete key (cache env))) /\
  (forall c, cached = Some c -> game c = None ->
   fromCache result = false /\ game result = findById (gameId params)).
Proof.
  intros key cached. unfold execute. fold key.
  pose proof (get_frame (cache env) key (atGet clk)) as Hframe. cbv zeta in Hframe.
  subst cached.
  destruct (Cache.get key (atGet clk) (cache env)) as [cached cache1].
  cbn [fst snd] in *.
  destruct (usable (atAge clk) cached) as [c|] eqn:Hu.
  - split; [discriminate|].
    intros c' -> Hnull. rewrite (null_game_not_usable _ _ Hnull) in Hu. discriminate.
  - destruct (findById (gameId params)) as [g|] eqn:Hf.
    + split; [discriminate|]. intros c' _ _. split; reflexivity.
    + split.
      * intros _ _. cbn [cache emitted]. repeat split; apply Hframe.
      * intros c' _ _. split; reflexivity.
Qed.

(** A request at time 20000 for a game the repository does not know, with
    another game cached. *)
Definition other_games : Env :=
  {| cache := {[ "game:7" :=
                   {| Cache.value :=
                        {| game := Some {| Game.id := "7"; Game.status := Game.FINAL;
                                           Game.scheduledAt := 0 |};
                           fromCache := false; cachedAt := 0 |};
                      Cache.expiresAt := 3600000%Q; Cache.cachedAt := 0 |} ]};
     emitted := [Fetched "7" Game.FINAL 3600] |}.

Lemma not_found_frame_witness :
  let findById := fun _ : string => @None Game.t in
  let '(result, env') := execute findById {| gameId := "42" |} at_20000 other_games in
  result = {| game := None; fromCache := false; cachedAt := 20000 |} /\
  emitted env' = emitted other_games /\
  cache env' !! "game:7" = cache other_games !! "game:7".
Proof.
  intros findById.
  pose proof (not_found_frame findById {| gameId := "42" |} at_20000 other_games) as H.
  cbv zeta in H.
  destruct (execute findById {| gameId := "42" |} at_20000 other_games) as [result env'].
  destruct H as [H _].
  destruct (H eq_refl eq_refl) as (Hr & He & Hother & _).
  split; [exact Hr|]. split; [exact He|].
  apply Hother. discriminate.
Defined.

End GameDetailsProps.

(** ** Rate limiter: admission rate, bursts, timeouts and monitoring *)

Module RateLimiterMore.
Import RateLimiter RateLimiterRun RateLimiterProps.

Lemma last_app_default (l1 l2 : list Z) (t : Z) :
  List.last (l1 ++ l2) t = List.last l2 (List.last l1 t).
Proof.
  revert t. induction l1 as [|a l1 IH]; intros t; [reflexivity|].
  change ((a :: l1) ++ l2) with (a :: (l1 ++ l2)).
  rewrite !last_cons_default. apply IH.
Qed.

Section Budget.
Variables (t0 : Z) (M R : Q).

(** The bucket's accounts balance: what is in the bucket plus what was
    taken out ([g] tokens) is at most the initial content plus what the
    elapsed time has refilled. *)
Definition balanced (t : Z) (rl : RateLimiter.t) (g : Z) : Prop :=
  sound t rl /\ maxTokens rl = M /\ refillRate rl = R /\
  (tokens rl + inject_Z g <= M + inject_Z (lastRefill rl - t0) * R)%Q.

Lemma balanced_later t t' rl g : balanced t rl g -> t <= t' -> balanced t' rl g.
Proof.
  intros (Hs & HM & HR & Hb) Ht. repeat split; try assumption; try apply Hs.
  destruct Hs as (_ & _ & Hl). lia.
Qed.

Lemma refill_balanced t now rl g :
  balanced t rl g -> t <= now -> balanced now (refill now rl) g.
Proof.
  intros (Hs & HM & HR & Hb) Ht.
  split; [exact (refill_sound t now rl Hs Ht)|].
  split; [exact HM|]. split; [exact HR|].
  cbn [refill tokens lastRefill].
  pose proof (Q.le_min_r (maxTokens rl)
                (tokens rl + inject_Z (now - lastRefill rl) * refillRate rl)) as Hmin.
  replace (now - t0) with ((now - lastRefill rl) + (lastRefill rl - t0)) by lia.
  rewrite inject_Z_plus, HR in *. lra.
Qed.

Lemma tryAcquire_balanced t now rl g :
  balanced t rl g -> t <= now ->
  balanced now (snd (tryAcquire now rl)) (g + if fst (tryAcquire now rl) then 1 else 0).
Proof.
  intros Hb Ht.
  pose proof (tryAcquire_sound t now rl (proj1 Hb) Ht) as Hs.
  pose proof (refill_balanced t now rl g Hb Ht) as (_ & HM & HR & Hbal).
  unfold tryAcquire in *.
  destruct (Qleb 1 (tokens (refill now rl))) eqn:E; cbn [fst snd] in *.
  - split; [exact Hs|]. split; [exact HM|]. split; [exact HR|].
    cbn [tokens lastRefill]. rewrite inject_Z_plus.
    change (inject_Z 1) with 1%Q. lra.
  - rewrite Z.add_0_r. split; [exact Hs|]. auto.
Qed.

Lemma acquire_loop_balanced timeoutMs startTime rounds : forall t rl g,
  balanced t rl g ->
  nondecreasing t (flat_map (fun r => [fst r; snd r]) rounds) ->
  balanced (List.last (flat_map (fun r => [fst r; snd r]) rounds) t)
    (snd (acquire_loop timeoutMs startTime rounds rl))
    (g + match fst (acquire_loop timeoutMs startTime rounds rl) with
         | Acquired => 1
         | _ => 0
         end).
Proof.
  induction rounds as [|[now now'] rounds IH]; intros t rl g Hb Hm.
  - simpl. rewrite Z.add_0_r. exact Hb.
  - cbn [flat_map fst snd app nondecreasing] in Hm |- *.
    destruct Hm as (H1 & H2 & Hrest).
    pose proof (tryAcquire_balanced t now rl g Hb H1) as Hb'.
    pose proof (nondecreasing_last _ _ Hrest) as Hlast.
    rewrite !last_cons_default. cbn [acquire_loop].
    destruct (tryAcquire now rl) as [ok rl'] eqn:E; cbn [fst snd] in Hb'.
    destruct ok; cbn [fst snd].
    + eapply balanced_later; [exact Hb' | lia].
    + rewrite Z.add_0_r in Hb'.
      destruct (Qleb timeoutMs (inject_Z (now' - startTime))); cbn [fst snd].
      * rewrite Z.add_0_r. eapply balanced_later; [exact Hb' | lia].
      * apply IH; [eapply balanced_later; [exact Hb' | lia] | exact Hrest].
Qed.

Lemma step_balanced op t rl g :
  is_reset op = false ->
  balanced t rl g -> nondecreasing t (readings op) ->
  balanced (List.last (readings op) t) (step op rl) (g + granted op rl).
Proof.
  intros Hop Hb Hm. destruct op as [now | timeoutMs startTime rounds | now | now];
    [| | | discriminate Hop].
  - simpl in *. apply (tryAcquire_balanced t); tauto.
  - cbn [readings nondecreasing step granted] in Hm |- *. destruct Hm as [H1 Hm].
    rewrite last_cons_default. unfold acquire.
    apply acquire_loop_balanced; [eapply balanced_later; eauto | exact Hm].
  - simpl in *. rewrite Z.add_0_r. apply (refill_balanced t); tauto.
Qed.

Lemma run_balanced ops : forall t rl g,
  forallb (fun op => negb (is_reset op)) ops = true ->
  balanced t rl g -> nondecreasing t (flat_map readings ops) ->
  exists rl', balanced (List.last (flat_map readings ops) t) rl'
                (g + total_granted ops rl).
Proof.
  induction ops as [|op ops IH]; intros t rl g Hops Hb Hm.
  - exists rl. simpl. rewrite Z.add_0_r. exact Hb.
  - cbn [forallb] in Hops. apply andb_true_iff in Hops as [Hop Hops].
    apply negb_true_iff in Hop.
    cbn [flat_map] in Hm |- *. apply nondecreasing_app in Hm as [Hm1 Hm2].
    pose proof (step_balanced op t rl g Hop Hb Hm1) as Hb'.
    destruct (IH _ _ _ Hops Hb' Hm2) as [rl' Hrl'].
    exists rl'. cbn [total_granted]. rewrite Z.add_assoc.
    rewrite last_app_default. exact Hrl'.
Qed.

End Budget.

(** X1 (admission rate).  For a limiter built from a configuration with
    [maxRequests >= 0] and [windowMs > 0], under a clock that never goes
    back, the tokens handed out by any sequence of [tryAcquire], [acquire]
    and [getAvailableTokens] calls number at most [maxRequests] plus the
    time elapsed since construction times the refill rate. *)
Theorem granted_rate_bound cfg t0 ops :
  (0 <= maxRequests cfg)%Q -> (0 < windowMs cfg)%Q ->
  monotone_clock t0 ops ->
  forallb (fun op => negb (is_reset op)) ops = true ->
  (inject_Z (total_granted ops (new cfg t0))
   <= maxRequests cfg
      + inject_Z (List.last (flat_map readings ops) t0 - t0)
        * (maxRequests cfg / windowMs cfg))%Q.
Proof.
  intros Hm Hw Hclock Hops.
  assert (Hb : balanced t0 (maxRequests cfg) (maxRequests cfg / windowMs cfg)
                 t0 (new cfg t0) 0).
  { split; [exact (new_sound cfg t0 Hm Hw)|]. repeat split.
    cbn [new tokens lastRefill]. rewrite Z.sub_diag.
    change (inject_Z 0) with 0%Q. lra. }
  destruct (run_balanced t0 _ _ ops t0 (new cfg t0) 0 Hops Hb Hclock)
    as (rl' & (Hr & (H0 & _) & Hl) & HM & HR & Hbal).
  rewrite Z.add_0_l in Hbal.
  assert (Hmono : (inject_Z (lastRefill rl' - t0) * (maxRequests cfg / windowMs cfg)
                   <= inject_Z (List.last (flat_map readings ops) t0 - t0)
                      * (maxRequests cfg / windowMs cfg))%Q).
  { apply Qmult_le_compat_r; [|rewrite <- HR; exact Hr].
    rewrite <- Zle_Qle. lia. }
  lra.
Qed.

Definition sample_calls : list Op :=
  [OpTryAcquire 10; OpAcquire None 20 [(20, 25)]; OpGetAvailableTokens 30;
   OpTryAcquire 50].

Lemma granted_rate_bound_witness :
  (inject_Z (total_granted sample_calls (new espn_limiter 0%Z))
   <= maxRequests espn_limiter
      + inject_Z (List.last (flat_map readings sample_calls) 0%Z - 0%Z)
        * (maxRequests espn_limiter / windowMs espn_limiter))%Q.
Proof.
  apply (granted_rate_bound espn_limiter 0 sample_calls).
  - unfold Qle; simpl; lia.
  - unfold Qlt; simpl; lia.
  - unfold monotone_clock; simpl; lia.
  - reflexivity.
Defined.

(** Comparisons respect equality of rationals. *)
Lemma Qleb_proper a x y : (x == y)%Q -> Qleb a x = Qleb a y.
Proof.
  intros Hxy. destruct (Qleb a y) eqn:E.
  - apply Qleb_le. apply Qleb_le in E. lra.
  - apply Qleb_gt. apply Qleb_gt in E. lra.
Qed.

(** A refill at the reading of the last refill changes nothing. *)
Lemma refill_same_reading rl :
  (tokens rl <= maxTokens rl)%Q ->
  (tokens (refill (lastRefill rl) rl) == tokens rl)%Q.
Proof.
  intros Hle. cbn [refill tokens]. rewrite Z.sub_diag.
  change (inject_Z 0) with 0%Q.
  destruct (Q.min_spec (maxTokens rl) (tokens rl + 0 * refillRate rl)) as [[H1 H2]|[H1 H2]];
    rewrite H2; lra.
Qed.

(** With [j] whole tokens in the bucket and no time passing, the next [k]
    calls of [tryAcquire] succeed [j] times and then fail. *)
Lemma tryAcquires_burst k : forall (j : nat) now rl,
  lastRefill rl = now ->
  (tokens rl == inject_Z (Z.of_nat j))%Q ->
  (tokens rl <= maxTokens rl)%Q ->
  tryAcquires k now rl
  = repeat true (Nat.min k j) ++ repeat false (k - j).
Proof.
  induction k as [|k IH]; intros j now rl Hlast Htok Hmax; [reflexivity|].
  cbn [tryAcquires]. unfold tryAcquire. subst now.
  pose proof (refill_same_reading rl Hmax) as Hsame.
  rewrite (Qleb_proper 1 _ _ Hsame).
  destruct j as [|j].
  - assert (E : Qleb 1 (tokens rl) = false).
    { apply Qleb_gt. rewrite Htok. reflexivity. }
    rewrite E.
    rewrite (IH 0%nat (lastRefill rl) (refill (lastRefill rl) rl)).
    + rewrite !Nat.min_0_r, !Nat.sub_0_r. reflexivity.
    + reflexivity.
    + rewrite Hsame. exact Htok.
    + cbn [refill tokens maxTokens]. apply Q.le_min_l.
  - assert (E : Qleb 1 (tokens rl) = true).
    { apply Qleb_le. rewrite Htok. rewrite Nat2Z.inj_succ.
      unfold Z.succ. rewrite inject_Z_plus. change (inject_Z 1) with 1%Q.
      pose proof (inject_Z_nonneg (Z.of_nat j) (Nat2Z.is_nonneg j)). lra. }
    rewrite E.
    rewrite (IH j (lastRefill rl)).
    + reflexivity.
    + reflexivity.
    + cbn [tokens]. rewrite Hsame, Htok, Nat2Z.inj_succ.
      unfold Z.succ. rewrite inject_Z_plus. change (inject_Z 1) with 1%Q. lra.
    + cbn [tokens maxTokens refill].
      pose proof (Q.le_min_l (maxTokens rl)
                    (tokens rl + inject_Z (lastRefill rl - lastRefill rl) * refillRate rl)).
      lra.
Qed.

(** X2 (burst capacity).  A limiter fresh from its constructor, configured
    for [n] requests per window, answers [k] immediate calls of
    [tryAcquire] (no clock tick in between) with true exactly [min k n]
    times, and false from then on.  (With [windowMs = 0] the rate is not a
    number in JavaScript; the window is taken positive.) *)
Theorem fresh_burst cfg (n k : nat) t0 :
  (maxRequests cfg == inject_Z (Z.of_nat n))%Q ->
  (0 < windowMs cfg)%Q ->
  tryAcquires k t0 (new cfg t0) = repeat true (Nat.min k n) ++ repeat false (k - n).
Proof.
  intros Hn _. apply tryAcquires_burst; [reflexivity | exact Hn | apply Qle_refl].
Qed.

Lemma fresh_burst_witness :
  tryAcquires 102 0 (new espn_limiter 0) = repeat true 100 ++ repeat false 2.
Proof.
  apply (fresh_burst espn_limiter 100 102 0); [reflexivity|].
  unfold Qlt; simpl; lia.
Defined.

(** X3 (timeout).  [acquire] throws its timeout error only at a polling
    round whose elapsed time has reached [timeoutMs], and only when the
    bucket, refilled at that round, holds less than one token. *)
Theorem acquire_timeout_only_after_deadline timeoutMs startTime rounds : forall rl rl',
  acquire_loop timeoutMs startTime rounds rl = (TimedOut, rl') ->
  exists now now',
    In (now, now') rounds /\
    (timeoutMs <= inject_Z (now' - startTime))%Q /\
    (tokens rl' < 1)%Q /\ lastRefill rl' = now.
Proof.
  induction rounds as [|[now now'] rounds IH]; intros rl rl' H; [discriminate H|].
  cbn [acquire_loop] in H. unfold tryAcquire in H.
  destruct (Qleb 1 (tokens (refill now rl))) eqn:E; [discriminate H|].
  destruct (Qleb timeoutMs (inject_Z (now' - startTime))) eqn:Et.
  - injection H as <-. exists now, now'. split; [now left|].
    split; [now apply Qleb_le|]. split; [now apply Qleb_gt | reflexivity].
  - destruct (IH _ _ H) as (n1 & n2 & Hin & Hrest).
    exists n1, n2. split; [now right | exact Hrest].
Qed.

(** A limiter of one request per second, its only token taken at time 0,
    polled at times 0 and 20 by an [acquire(50)] started at 0. *)
Definition drained : RateLimiter.t :=
  snd (tryAcquire 0 (new {| maxRequests := 1; windowMs := 1000 |} 0)).

Definition two_rounds : list (Z * Z) := [(0, 10); (20, 50)].

Lemma acquire_timeout_only_after_deadline_witness :
  exists now now',
    In (now, now') two_rounds /\
    (50 <= inject_Z (now' - 0))%Q /\
    (tokens (snd (acquire_loop 50 0 two_rounds drained)) < 1)%Q /\
    lastRefill (snd (acquire_loop 50 0 two_rounds drained)) = now.
Proof.
  apply (acquire_timeout_only_after_deadline 50 0 two_rounds drained).
  reflexivity.
Defined.



End RateLimiterMore.


(** ** Circuit breaker: counters, opening, recovery *)

Module CircuitBreakerMore.
Import CircuitBreaker CircuitBreakerRun.

(** The counters are counts: none is negative, and failures never exceed
    requests. *)
Definition counters_ok (cb : CircuitBreaker.t) : Prop :=
  0 <= failureCount cb <= requestCount cb /\ 0 <= successCount cb.

Lemma recordSuccess_counters cb : counters_ok cb -> counters_ok (recordSuccess cb).
Proof.
  unfold counters_ok, recordSuccess. intros [H1 H2].
  destruct (state cb); cbn; try lia.
  destruct (successThreshold_or_1 (config cb) <=? successCount cb + 1); cbn; lia.
Qed.

Lemma recordFailure_counters now now' cb :
  counters_ok cb -> counters_ok (recordFailure now now' cb).
Proof.
  unfold counters_ok, recordFailure. intros [H1 H2].
  destruct (state cb); cbn;
    repeat match goal with |- context [if ?b then _ else _] => destruct b end;
    cbn; lia.
Qed.

Lemma step_counters op cb : counters_ok cb -> counters_ok (step op cb).
Proof.
  intros H. destruct op as [now| |now now'| |st]; cbn [step].
  - unfold allowRequest. destruct (state cb); cbn; try exact H.
    destruct (nextAttemptTime cb <=? now); cbn; [|exact H].
    unfold counters_ok in *; cbn; lia.
  - now apply recordSuccess_counters.
  - now apply recordFailure_counters.
  - unfold counters_ok; cbn; lia.
  - exact H.
Qed.

Lemma run_counters ops : forall cb, counters_ok cb -> counters_ok (run ops cb).
Proof.
  induction ops as [|op ops IH]; intros cb H; [exact H|].
  apply IH, step_counters, H.
Qed.

Lemma new_counters cfg cb0 : new cfg = Some cb0 -> counters_ok cb0.
Proof.
  unfold new. destruct (_ || _); [discriminate|].
  intros [= <-]. unfold counters_ok; cbn; lia.
Qed.

Lemma failureRate_range cb :
  counters_ok cb -> 0 < requestCount cb ->
  (0 <= failureRate cb)%Q /\ (failureRate cb <= 100)%Q.
Proof.
  intros [[H0 Hle] _] Hpos. unfold failureRate.
  assert (Hr : (0 < inject_Z (requestCount cb))%Q).
  { change 0%Q with (inject_Z 0). now rewrite <- Zlt_Qlt. }
  assert (Hf : (0 <= inject_Z (failureCount cb))%Q).
  { change 0%Q with (inject_Z 0). now rewrite <- Zle_Qle. }
  assert (Hfr : (inject_Z (failureCount cb) <= inject_Z (requestCount cb))%Q).
  { now rewrite <- Zle_Qle. }
  assert (Hdiv0 : (0 <= inject_Z (failureCount cb) / inject_Z (requestCount cb))%Q).
  { apply Qle_shift_div_l; [exact Hr | lra]. }
  assert (Hdiv1 : (inject_Z (failureCount cb) / inject_Z (requestCount cb) <= 1)%Q).
  { apply Qle_shift_div_r; [exact Hr | lra]. }
  split; lra.
Qed.

(** X5 (counters and reported rate).  Whatever sequence of [allowRequest],
    [recordSuccess], [recordFailure], [reset] and [forceState] calls a
    breaker has been through since its construction, its counters are
    non-negative, [failureCount] does not exceed [requestCount], and the
    failure rate [getMetrics] reports lies between 0 and 100. *)
Theorem counters_and_rate_in_range cfg cb0 ops :
  new cfg = Some cb0 ->
  let cb := run ops cb0 in
  0 <= failureCount cb <= requestCount cb /\
  0 <= successCount cb /\
  (0 <= m_failureRate (getMetrics cb))%Q /\
  (m_failureRate (getMetrics cb) <= 100)%Q.
Proof.
  intros Hnew cb.
  pose proof (run_counters ops cb0 (new_counters cfg cb0 Hnew)) as Hc. fold cb in Hc.
  split; [apply Hc|]. split; [apply Hc|].
  cbn [getMetrics m_failureRate].
  destruct (0 <? requestCount cb) eqn:E.
  - apply Z.ltb_lt in E. exact (failureRate_range cb Hc E).
  - split; [apply Qle_refl | unfold Qle; simpl; lia].
Qed.

Definition sample_ops : list Op :=
  [OpAllowRequest 1; OpRecordFailure 2 2; OpRecordSuccess; OpRecordFailure 3 3;
   OpForceState OPEN; OpAllowRequest 70000; OpRecordSuccess; OpRecordFailure 70001 70001;
   OpReset; OpRecordFailure 70002 70002].

Lemma counters_and_rate_in_range_witness :
  let cb0 := {| config := CircuitBreakerProps.config_5_50 60000 None; state := CLOSED;
                failureCount := 0; successCount := 0; requestCount := 0;
                lastFailureTime := 0; nextAttemptTime := 0 |} in
  let cb := run sample_ops cb0 in
  0 <= failureCount cb <= requestCount cb /\
  0 <= successCount cb /\
  (0 <= m_failureRate (getMetrics cb))%Q /\
  (m_failureRate (getMetrics cb) <= 100)%Q.
Proof.
  intros cb0.
  exact (counters_and_rate_in_range (CircuitBreakerProps.config_5_50 60000 None) cb0
           sample_ops eq_refl).
Defined.

Lemma recordAll_snoc rs r cb : recordAll (rs ++ [r]) cb = record r (recordAll rs cb).
Proof. unfold recordAll. rewrite fold_left_app. reflexivity. Qed.

Lemma successes_snoc n : successes (S n) = successes n ++ [Success].
Proof. unfold successes. apply repeat_cons. Qed.

Lemma probing_successes hb (j : nat) :
  state hb = HALF_OPEN -> successCount hb = 0 ->
  Z.of_nat j < Z.max (successThreshold_or_1 (config hb)) 1 ->
  let cb := recordAll (successes j) hb in
  config cb = config hb /\ state cb = HALF_OPEN /\ successCount cb = Z.of_nat j.
Proof.
  intros Hst Hsc. induction j as [|j IH]; intros Hj.
  - cbn. auto.
  - rewrite successes_snoc, recordAll_snoc. cbn [record].
    assert (Hj' : Z.of_nat j < Z.max (successThreshold_or_1 (config hb)) 1) by lia.
    destruct (IH Hj') as (Hcfg & Hst' & Hsc').
    unfold recordSuccess. cbn [state config successCount]. rewrite Hst'.
    cbn [config successCount]. rewrite Hcfg, Hsc'.
    destruct (successThreshold_or_1 (config hb) <=? Z.of_nat j + 1) eqn:E;
      [apply Z.leb_le in E; lia|].
    cbn. split; [reflexivity|]. split; [reflexivity | lia].
Qed.

(** X7 (recovery).  A breaker probing in [HALF_OPEN] with
    [successCount = 0], as [allowRequest] leaves it, stays in [HALF_OPEN]
    while fewer successes than the success threshold (1 when not
    configured or 0) have been recorded, and with the threshold-th success
    it closes with all three counters back at 0. *)
Theorem half_open_closes_at_threshold hb :
  state hb = HALF_OPEN -> successCount hb = 0 ->
  let n := Z.max (successThreshold_or_1 (config hb)) 1 in
  (forall j : nat, Z.of_nat j < n -> state (recordAll (successes j) hb) = HALF_OPEN) /\
  let cb := recordAll (successes (Z.to_nat n)) hb in
  state cb = CLOSED /\ failureCount cb = 0 /\ successCount cb = 0 /\ requestCount cb = 0.
Proof.
  intros Hst Hsc n. split.
  - intros j Hj. apply (probing_successes hb j Hst Hsc Hj).
  - assert (Hn : Z.to_nat n = S (Z.to_nat (n - 1))).
    { rewrite <- Z2Nat.inj_succ by (subst n; lia). f_equal. lia. }
    rewrite Hn, successes_snoc, recordAll_snoc. cbn [record].
    destruct (probing_successes hb (Z.to_nat (n - 1)) Hst Hsc) as (Hcfg & Hst' & Hsc').
    { rewrite Z2Nat.id by (subst n; lia). fold n. lia. }
    rewrite Z2Nat.id in Hsc' by (subst n; lia).
    unfold recordSuccess. cbn [state config successCount]. rewrite Hst'.
    cbn [config successCount]. rewrite Hcfg, Hsc'.
    destruct (successThreshold_or_1 (config hb) <=? n - 1 + 1) eqn:E;
      [|apply Z.leb_gt in E; subst n; lia].
    cbn. auto.
Qed.

Lemma half_open_closes_at_threshold_witness :
  let hb := {| config := {| failureThreshold := 50; minimumRequests := 10;
                            resetTimeout := 60000; successThreshold := Some 3 |};
               state := HALF_OPEN; failureCount := 6; successCount := 0;
               requestCount := 10; lastFailureTime := 5; nextAttemptTime := 60005 |} in
  (forall j : nat, Z.of_nat j < 3 -> state (recordAll (successes j) hb) = HALF_OPEN) /\
  let cb := recordAll (successes 3) hb in
  state cb = CLOSED /\ failureCount cb = 0 /\ successCount cb = 0 /\ requestCount cb = 0.
Proof.
  intros hb. exact (half_open_closes_at_threshold hb eq_refl eq_refl).
Defined.

(** X8 (an open circuit stays open).  No recorded outcome, success or
    failure, takes a breaker out of [OPEN]; and recording a success never
    puts a breaker into [OPEN]. *)
Theorem records_keep_open rs cb :
  (state cb = OPEN -> state (recordAll rs cb) = OPEN) /\
  (state (recordSuccess cb) = OPEN -> state cb = OPEN).
Proof.
  split.
  - revert cb. induction rs as [|r rs IH]; intros cb Hopen; [exact Hopen|].
    cbn [recordAll fold_left]. apply IH.
    destruct r as [|now now']; cbn [record].
    + unfold recordSuccess. cbn [state]. rewrite Hopen. reflexivity.
    + unfold recordFailure. cbn [state]. rewrite Hopen.
      repeat match goal with |- context [if ?b then _ else _] => destruct b end;
        cbn; auto.
  - unfold recordSuccess. cbn [state]. destruct (state cb); cbn; auto.
    destruct (_ <=? _); cbn; intros H; discriminate H.
Qed.

Lemma records_keep_open_witness :
  let cb := {| config := CircuitBreakerProps.config_5_50 60000 None; state := OPEN;
               failureCount := 3; successCount := 0; requestCount := 5;
               lastFailureTime := 40; nextAttemptTime := 60040 |} in
  state (recordAll [Success; Failure 50 50; Success; Success] cb) = OPEN.
Proof.
  intros cb.
  exact (proj1 (records_keep_open [Success; Failure 50 50; Success; Success] cb) eq_refl).
Defined.

End CircuitBreakerMore.


(** ** Circuit breaker: any configuration the constructor accepts *)

Module CircuitBreakerJsProps.
Import CircuitBreakerJs.

(** On a breaker whose fields are finite, the constructor and
    [recordFailure] are those of [CircuitBreaker]. *)
Lemma new_of_config cfg : new (of_config cfg) = of_breaker <$> CircuitBreaker.new cfg.
Proof.
  unfold new, CircuitBreaker.new, of_config, JsNumber.gtb.
  cbn [failureThreshold JsNumber.ltb JsNumber.of_Z].
  change (inject_Z 0) with 0%Q. change (inject_Z 100) with 100%Q.
  destruct (Qltb (CircuitBreaker.failureThreshold cfg) 0
            || Qltb 100 (CircuitBreaker.failureThreshold cfg)); reflexivity.
Qed.

Lemma failureRate_of_breaker cb :
  0 < CircuitBreaker.requestCount cb ->
  failureRate (of_breaker cb) = JsNumber.Num (CircuitBreaker.failureRate cb).
Proof.
  intros Hr. unfold failureRate, CircuitBreaker.failureRate, of_breaker; cbn.
  destruct (CircuitBreaker.requestCount cb) as [|r|r]; try lia. reflexivity.
Qed.

Lemma recordFailure_of_breaker now now' cb :
  0 <= CircuitBreaker.requestCount cb ->
  recordFailure now now' (of_breaker cb)
  = of_breaker (CircuitBreaker.recordFailure now now' cb).
Proof.
  intros Hr. unfold recordFailure, CircuitBreaker.recordFailure.
  set (cb1 := {| CircuitBreaker.config := CircuitBreaker.config cb;
                 CircuitBreaker.state := CircuitBreaker.state cb;
                 CircuitBreaker.failureCount := CircuitBreaker.failureCount cb + 1;
                 CircuitBreaker.successCount := CircuitBreaker.successCount cb;
                 CircuitBreaker.requestCount := CircuitBreaker.requestCount cb + 1;
                 CircuitBreaker.lastFailureTime := now;
                 CircuitBreaker.nextAttemptTime := CircuitBreaker.nextAttemptTime cb |}).
  change {| config := config (of_breaker cb); state := state (of_breaker cb);
            failureCount := failureCount (of_breaker cb) + 1;
            successCount := successCount (of_breaker cb);
            requestCount := requestCount (of_breaker cb) + 1;
            lastFailureTime := now;
            nextAttemptTime := nextAttemptTime (of_breaker cb) |}
    with (of_breaker cb1).
  assert (Hopen : transitionToOpen now' (of_breaker cb1)
                  = of_breaker (CircuitBreaker.transitionToOpen now' cb1)).
  { unfold transitionToOpen, CircuitBreaker.transitionToOpen, of_breaker.
    cbn -[JsNumber.of_Z JsNumber.add].
    rewrite JsNumberProps.add_of_Z. reflexivity. }
  assert (Hrate : failureRate (of_breaker cb1) = JsNumber.Num (CircuitBreaker.failureRate cb1)).
  { apply failureRate_of_breaker. cbn. lia. }
  change (state (of_breaker cb1)) with (CircuitBreaker.state cb1).
  change (requestCount (of_breaker cb1)) with (CircuitBreaker.requestCount cb1).
  change (minimumRequests (config (of_breaker cb1)))
    with (JsNumber.of_Z (CircuitBreaker.minimumRequests (CircuitBreaker.config cb1))).
  change (failureThreshold (config (of_breaker cb1)))
    with (JsNumber.Num (CircuitBreaker.failureThreshold (CircuitBreaker.config cb1))).
  rewrite Hrate, JsNumberProps.geb_of_Z, Hopen. clearbody cb1.
  change (JsNumber.geb (JsNumber.Num (CircuitBreaker.failureRate cb1))
            (JsNumber.Num (CircuitBreaker.failureThreshold (CircuitBreaker.config cb1))))
    with (Qleb (CircuitBreaker.failureThreshold (CircuitBreaker.config cb1))
               (CircuitBreaker.failureRate cb1)).
  destruct (CircuitBreaker.state cb1); try reflexivity;
    destruct (CircuitBreaker.minimumRequests (CircuitBreaker.config cb1)
              <=? CircuitBreaker.requestCount cb1); try reflexivity;
    destruct (Qleb (CircuitBreaker.failureThreshold (CircuitBreaker.config cb1))
                   (CircuitBreaker.failureRate cb1)); reflexivity.
Qed.

(** What the constructor accepts: a threshold from 0 to 100, or NaN. *)
Lemma new_accepts cfg cb0 :
  new cfg = Some cb0 ->
  config cb0 = cfg /\ state cb0 = CircuitBreaker.CLOSED /\
  failureCount cb0 = 0 /\ requestCount cb0 = 0 /\
  (failureThreshold cfg = JsNumber.NaN \/
   exists q, failureThreshold cfg = JsNumber.Num q /\ (0 <= q)%Q /\ (q <= 100)%Q).
Proof.
  unfold new, JsNumber.gtb.
  destruct (failureThreshold cfg) as [| |q|] eqn:Eth; cbn; try discriminate.
  - intros [= <-]. cbn. auto 10.
  - destruct (Qltb q (inject_Z 0)) eqn:E1; [discriminate|].
    destruct (Qltb (inject_Z 100) q) eqn:E2; [discriminate|].
    intros [= <-]. apply Qltb_ge in E1, E2. cbn. eauto 10.
Qed.

Lemma geb_succ k m :
  JsNumber.geb (JsNumber.of_Z k) m = true -> JsNumber.geb (JsNumber.of_Z (k + 1)) m = true.
Proof.
  destruct m as [| |q|]; cbn; try congruence.
  intros H. apply Qleb_le in H. apply Qleb_le.
  eapply Qle_trans; [exact H|]. rewrite <- Zle_Qle. lia.
Qed.

(** When every recorded request has failed, the rate is 100. *)
Lemma full_failure_rate cb q :
  0 < requestCount cb -> failureCount cb = requestCount cb -> (q <= 100)%Q ->
  JsNumber.geb (failureRate cb) (JsNumber.Num q) = true.
Proof.
  intros Hpos Heq Hq. unfold failureRate. rewrite Heq.
  destruct (requestCount cb) as [|r|r]; try lia.
  cbn. apply Qleb_le. eapply Qle_trans; [exact Hq|].
  apply Qle_lteq. right. symmetry.
  change (inject_Z (Z.pos r) / inject_Z (Z.pos r) * inject_Z 100 == 100)%Q.
  field. unfold Qeq; cbn. lia.
Qed.

(** The circuit after [k] failures in a row on a fresh breaker. *)
Definition opened (cfg : CircuitBreakerConfig) (k : Z) : bool :=
  (0 <? k) && JsNumber.geb (JsNumber.of_Z k) (minimumRequests cfg)
  && negb (JsNumber.isNaN (failureThreshold cfg)).

Definition after_failures (cfg : CircuitBreakerConfig) (k : Z) (cb : t) : Prop :=
  config cb = cfg /\ failureCount cb = k /\ requestCount cb = k /\
  state cb = if opened cfg k then CircuitBreaker.OPEN else CircuitBreaker.CLOSED.

Lemma recordFailure_after_failures cfg k now now' cb :
  (failureThreshold cfg = JsNumber.NaN \/
   exists q, failureThreshold cfg = JsNumber.Num q /\ (0 <= q)%Q /\ (q <= 100)%Q) ->
  0 <= k ->
  after_failures cfg k cb ->
  after_failures cfg (k + 1) (recordFailure now now' cb).
Proof.
  intros Hth Hk (Hcfg & Hf & Hr & Hst).
  assert (Hpos : (0 <? k + 1) = true) by (apply Z.ltb_lt; lia).
  unfold after_failures, opened. rewrite Hpos. cbn [andb].
  unfold recordFailure.
  set (cb1 := {| config := config cb; state := state cb;
                 failureCount := failureCount cb + 1;
                 successCount := successCount cb;
                 requestCount := requestCount cb + 1;
                 lastFailureTime := now;
                 nextAttemptTime := nextAttemptTime cb |}).
  assert (Hcfg1 : config cb1 = cfg) by exact Hcfg.
  assert (Hf1 : failureCount cb1 = k + 1) by (cbn; lia).
  assert (Hr1 : requestCount cb1 = k + 1) by (cbn; lia).
  assert (Hst1 : state cb1 = state cb) by reflexivity.
  assert (Hrate : forall q, failureThreshold cfg = JsNumber.Num q -> (q <= 100)%Q ->
            JsNumber.geb (failureRate cb1) (failureThreshold cfg) = true).
  { intros q -> Hq. apply full_failure_rate; [lia | lia | exact Hq]. }
  clearbody cb1. rewrite Hcfg1, Hr1, Hst1.
  assert (Hnot_half : state cb <> CircuitBreaker.HALF_OPEN).
  { rewrite Hst. destruct (opened cfg k); discriminate. }
  destruct (JsNumber.geb (JsNumber.of_Z (k + 1)) (minimumRequests cfg)) eqn:Em.
  - destruct Hth as [Hnan | (q & Hq & _ & Hle)].
    + rewrite Hnan. cbn [JsNumber.isNaN negb andb JsNumber.geb].
      assert (Hgeb : JsNumber.geb (failureRate cb1) JsNumber.NaN = false).
      { destruct (failureRate cb1); reflexivity. }
      rewrite Hgeb.
      unfold opened in Hst. rewrite Hnan in Hst. cbn [JsNumber.isNaN negb] in Hst.
      rewrite andb_false_r in Hst. rewrite Hst in Hst1 |- *. cbn. auto.
    + rewrite (Hrate q Hq Hle). rewrite Hq. cbn [JsNumber.isNaN negb andb].
      destruct (state cb); cbn; try contradiction; auto.
  - assert (Em' : JsNumber.geb (JsNumber.of_Z k) (minimumRequests cfg) = false).
    { destruct (JsNumber.geb (JsNumber.of_Z k) (minimumRequests cfg)) eqn:E; [|reflexivity].
      apply geb_succ in E. congruence. }
    unfold opened in Hst. rewrite Em', andb_false_r in Hst. cbn [andb] in Hst.
    rewrite Hst in Hst1 |- *. cbn. auto.
Qed.

Lemma recordFailures_snoc ts t cb :
  recordFailures (ts ++ [t]) cb = recordFailure (fst t) (snd t) (recordFailures ts cb).
Proof. unfold recordFailures. rewrite fold_left_app. reflexivity. Qed.

(** X6 (sustained failure).  On a fresh breaker, whatever configuration the
    constructor accepted, the circuit after [k] requests that all failed is
    open exactly when [k >= 1], [k >= minimumRequests] and
    [failureThreshold] is not NaN.  So with [minimumRequests] a whole number
    and a threshold that is a number, the circuit opens at the
    [minimumRequests]-th failure (at the first one when [minimumRequests] is
    below 1), not before, and further failures leave it open; and with NaN
    for [failureThreshold], which the range check of the constructor lets
    through, or for [minimumRequests], no run of failures opens it. *)
Theorem consecutive_failures_open cfg cb0 ts :
  new cfg = Some cb0 ->
  let k := Z.of_nat (length ts) in
  let st := state (recordFailures ts cb0) in
  st = (if (0 <? k) && JsNumber.geb (JsNumber.of_Z k) (minimumRequests cfg)
           && negb (JsNumber.isNaN (failureThreshold cfg))
        then CircuitBreaker.OPEN else CircuitBreaker.CLOSED) /\
  (forall m : Z,
     minimumRequests cfg = JsNumber.of_Z m -> failureThreshold cfg <> JsNumber.NaN ->
     st = if (0 <? k) && (m <=? k) then CircuitBreaker.OPEN else CircuitBreaker.CLOSED) /\
  (failureThreshold cfg = JsNumber.NaN \/ minimumRequests cfg = JsNumber.NaN ->
   st = CircuitBreaker.CLOSED).
Proof.
  intros Hnew k st.
  destruct (new_accepts cfg cb0 Hnew) as (Hcfg & Hst & Hf & Hr & Hth).
  assert (H : after_failures cfg k (recordFailures ts cb0)).
  { subst k. clear st. induction ts as [|t ts IH] using rev_ind.
    - cbn. unfold after_failures, opened. cbn. auto.
    - rewrite recordFailures_snoc, length_app, Nat2Z.inj_add. cbn [length].
      apply recordFailure_after_failures; [exact Hth | lia | exact IH]. }
  destruct H as (_ & _ & _ & H). fold st in H. unfold opened in H.
  split; [exact H|]. split.
  - intros m Hm Hnan. rewrite H, Hm, JsNumberProps.geb_of_Z.
    destruct (failureThreshold cfg); try contradiction; cbn; rewrite andb_true_r; reflexivity.
  - intros [Hnan | Hnan]; rewrite H, Hnan; cbn.
    + rewrite andb_false_r. reflexivity.
    + rewrite andb_false_r. reflexivity.
Qed.

(** The ESPN configuration (50 %, 5 requests), and the same with a threshold
    that did not parse. *)
Definition espn_config : CircuitBreakerConfig :=
  of_config (CircuitBreakerProps.config_5_50 60000 None).

Definition nan_threshold : CircuitBreakerConfig :=
  {| failureThreshold := JsNumber.NaN;
     minimumRequests := JsNumber.of_Z 5;
     resetTimeout := JsNumber.of_Z 60000;
     successThreshold := None |}.

Definition fresh (cfg : CircuitBreakerConfig) : t :=
  {| config := cfg; state := CircuitBreaker.CLOSED;
     failureCount := 0; successCount := 0; requestCount := 0;
     lastFailureTime := 0; nextAttemptTime := JsNumber.of_Z 0 |}.

Lemma consecutive_failures_open_witness :
  state (recordFailures [(1, 1); (2, 2); (3, 3); (4, 4)] (fresh espn_config))
  = CircuitBreaker.CLOSED /\
  state (recordFailures [(1, 1); (2, 2); (3, 3); (4, 4); (5, 5)] (fresh espn_config))
  = CircuitBreaker.OPEN /\
  new nan_threshold = Some (fresh nan_threshold) /\
  state (recordFailures [(1, 1); (2, 2); (3, 3); (4, 4); (5, 5)] (fresh nan_threshold))
  = CircuitBreaker.CLOSED.
Proof.
  split; [|split; [|split]].
  - exact (proj1 (consecutive_failures_open espn_config (fresh espn_config)
                    [(1, 1); (2, 2); (3, 3); (4, 4)] eq_refl)).
  - exact (proj1 (consecutive_failures_open espn_config (fresh espn_config)
                    [(1, 1); (2, 2); (3, 3); (4, 4); (5, 5)] eq_refl)).
  - reflexivity.
  - exact (proj1 (consecutive_failures_open nan_threshold (fresh nan_threshold)
                    [(1, 1); (2, 2); (3, 3); (4, 4); (5, 5)] eq_refl)).
Defined.

End CircuitBreakerJsProps.

(** ** Provider: the paths of [executeRequest] *)

Module ProviderMore.
Import Provider.

Section Paths.
Context {T : Type}.
Variables (op : string) (request : Eff.result Error T) (clk : Clock) (p : Provider.t).

(** The breaker's answer and the provider after asking. *)
Definition admitted : bool :=
  fst (CircuitBreaker.allowRequest (atAllow clk) (circuitBreaker p)).
Definition asked : CircuitBreaker.t :=
  snd (CircuitBreaker.allowRequest (atAllow clk) (circuitBreaker p)).

(** The limiter's answer and the limiter after [acquire()]. *)
Definition acquired : RateLimiter.AcquireOutcome :=
  fst (RateLimiter.acquire None (acquireStart clk) (acquireRounds clk) (rateLimiter p)).
Definition polled : RateLimiter.t :=
  snd (RateLimiter.acquire None (acquireStart clk) (acquireRounds clk) (rateLimiter p)).

Definition wrapped (e : Error) : ProviderError :=
  {| providerName := name p; operation := op; originalError := e |}.

Definition failed (rl : RateLimiter.t) : Provider.t :=
  {| name := name p; rateLimiter := rl;
     circuitBreaker :=
       CircuitBreaker.recordFailure (atFailure clk) (atReopen clk) asked |}.

(** [executeRequest], path by path. *)
Lemma executeRequest_paths :
  executeRequest op request clk p =
  if admitted then
    match acquired with
    | RateLimiter.Polling =>
        (Eff.Pending,
         {| name := name p; rateLimiter := polled; circuitBreaker := asked |})
    | RateLimiter.TimedOut => (Eff.Thrown (wrapped RateLimiterTimeoutError), failed polled)
    | RateLimiter.Acquired =>
        match request with
        | Eff.Returned v =>
            (Eff.Returned v,
             {| name := name p; rateLimiter := polled;
                circuitBreaker := CircuitBreaker.recordSuccess asked |})
        | Eff.Thrown e => (Eff.Thrown (wrapped e), failed polled)
        | Eff.Pending =>
            (Eff.Pending,
             {| name := name p; rateLimiter := polled; circuitBreaker := asked |})
        end
    end
  else
    (Eff.Thrown (wrapped (ProviderUnavailableError (name p +:+ " circuit breaker is open"))),
     failed (rateLimiter p)).
Proof.
  unfold failed, wrapped, admitted, asked, acquired, polled.
  unfold executeRequest, Eff.try_catch, Eff.bind, allowRequest, Eff.lift, acquire,
    call, recordSuccess, recordFailure, Eff.modify, Eff.throw, Eff.ret.
  destruct p as [nm rl cb]. cbn [circuitBreaker rateLimiter name].
  destruct (CircuitBreaker.allowRequest (atAllow clk) cb) as [[|] cb1]; cbn.
  - destruct (RateLimiter.acquire None (acquireStart clk) (acquireRounds clk) rl)
      as [[| |] rl1]; cbn; try reflexivity.
    destruct request; reflexivity.
  - reflexivity.
Qed.

Lemma allowRequest_counts now cb :
  CircuitBreaker.failureCount (snd (CircuitBreaker.allowRequest now cb))
  = CircuitBreaker.failureCount cb /\
  CircuitBreaker.requestCount (snd (CircuitBreaker.allowRequest now cb))
  = CircuitBreaker.requestCount cb.
Proof.
  unfold CircuitBreaker.allowRequest.
  destruct (CircuitBreaker.state cb); cbn; auto.
  destruct (_ <=? _); cbn; auto.
Qed.

(** X9 (every rejection is one recorded failure).  Whenever
    [executeRequest] rejects, for whatever reason (circuit open, limiter
    timeout, request failure), the error is a [ProviderError] carrying the
    provider's name and the operation, and the breaker's [failureCount] and
    [requestCount] have each gone up by exactly one. *)
Theorem rejection_records_one_failure e p' :
  executeRequest op request clk p = (Eff.Thrown e, p') ->
  providerName e = name p /\ operation e = op /\
  CircuitBreaker.failureCount (circuitBreaker p')
  = CircuitBreaker.failureCount (circuitBreaker p) + 1 /\
  CircuitBreaker.requestCount (circuitBreaker p')
  = CircuitBreaker.requestCount (circuitBreaker p) + 1.
Proof.
  rewrite executeRequest_paths.
  pose proof (allowRequest_counts (atAllow clk) (circuitBreaker p)) as [Hf Hr].
  fold asked in Hf, Hr.
  pose proof (ProviderProps.recordFailure_counts (atFailure clk) (atReopen clk) asked)
    as [Hf' Hr'].
  assert (Hfailed : forall rl err,
    (Eff.Thrown (wrapped err), failed rl) = (@Eff.Thrown ProviderError T e, p') ->
    providerName e = name p /\ operation e = op /\
    CircuitBreaker.failureCount (circuitBreaker p')
    = CircuitBreaker.failureCount (circuitBreaker p) + 1 /\
    CircuitBreaker.requestCount (circuitBreaker p')
    = CircuitBreaker.requestCount (circuitBreaker p) + 1).
  { intros rl err [= <- <-]. cbn. rewrite Hf', Hr', Hf, Hr. auto. }
  destruct admitted; [|apply Hfailed].
  destruct acquired; [| apply Hfailed | discriminate].
  destruct request; [discriminate | apply Hfailed | discriminate].
Qed.

(** X10 (what a returned value means).  [executeRequest] returns a value
    exactly when the breaker admitted the call, the limiter granted a
    token and the request returned that value; the breaker has then
    recorded one success and the limiter is the one [acquire] left. *)
Theorem returns_iff_request_returned v p' :
  executeRequest op request clk p = (Eff.Returned v, p') <->
  admitted = true /\ acquired = RateLimiter.Acquired /\ request = Eff.Returned v /\
  p' = {| name := name p; rateLimiter := polled;
          circuitBreaker := CircuitBreaker.recordSuccess asked |}.
Proof.
  rewrite executeRequest_paths.
  destruct admitted; [|split; [discriminate | intros [H _]; discriminate H]].
  destruct acquired;
    [| split; [discriminate | intros (_ & H & _); discriminate H] ..].
  destruct request as [v'|e|].
  - split; [intros [= -> <-]; auto | intros (_ & _ & [= ->] & ->); reflexivity].
  - split; [discriminate | intros (_ & _ & H & _); discriminate H].
  - split; [discriminate | intros (_ & _ & H & _); discriminate H].
Qed.

(** X12 (the probe decides).  When the circuit is open and its reset
    timeout has elapsed, a call that gets its token is the probe: if the
    request returns and the success threshold is at most 1 (the default),
    the call returns the value and the circuit is closed with its counters
    at 0; if the request fails, the circuit is open again, until the
    reading of that transition plus [resetTimeout]. *)
Theorem probe_decides :
  CircuitBreaker.state (circuitBreaker p) = CircuitBreaker.OPEN ->
  CircuitBreaker.nextAttemptTime (circuitBreaker p) <= atAllow clk ->
  acquired = RateLimiter.Acquired ->
  let cfg := CircuitBreaker.config (circuitBreaker p) in
  let '(outcome, p') := executeRequest op request clk p in
  (forall v, request = Eff.Returned v ->
     CircuitBreaker.successThreshold_or_1 cfg <= 1 ->
     outcome = Eff.Returned v /\
     CircuitBreaker.state (circuitBreaker p') = CircuitBreaker.CLOSED /\
     CircuitBreaker.failureCount (circuitBreaker p') = 0 /\
     CircuitBreaker.successCount (circuitBreaker p') = 0 /\
     CircuitBreaker.requestCount (circuitBreaker p') = 0) /\
  (forall e, request = Eff.Thrown e ->
     outcome = Eff.Thrown (wrapped e) /\
     CircuitBreaker.state (circuitBreaker p') = CircuitBreaker.OPEN /\
     CircuitBreaker.nextAttemptTime (circuitBreaker p')
     = atReopen clk + CircuitBreaker.resetTimeout cfg).
Proof.
  intros Hopen Hdue Hacq cfg.
  rewrite executeRequest_paths. rewrite Hacq.
  assert (Hadm : admitted = true /\ asked = CircuitBreaker.transitionToHalfOpen (circuitBreaker p)).
  { unfold admitted, asked, CircuitBreaker.allowRequest. rewrite Hopen.
    destruct (_ <=? _) eqn:E; [auto | apply Z.leb_gt in E; lia]. }
  destruct Hadm as [-> Hasked].
  destruct request as [v'|e'|].
  - split; [|intros e H; discriminate H].
    intros v [= ->] Hth. rewrite Hasked. cbn [circuitBreaker].
    unfold CircuitBreaker.recordSuccess. cbn.
    fold cfg. destruct (CircuitBreaker.successThreshold_or_1 cfg <=? 0 + 1) eqn:E;
      [|apply Z.leb_gt in E; lia].
    cbn. auto.
  - split; [intros v H; discriminate H|].
    intros e [= ->]. unfold failed. rewrite Hasked. cbn [circuitBreaker].
    unfold CircuitBreaker.recordFailure. cbn. auto.
  - split; [intros v H | intros e H]; discriminate H.
Qed.

End Paths.

(** X11 (no request without admission and token).  When the breaker denies
    the call or the limiter times out, the request function plays no part:
    the outcome and the provider's state are the same whatever the request
    would have done; and after a denial the limiter is untouched. *)
Theorem request_not_made {T} op (request request' : Eff.result Error T) clk p :
  admitted clk p = false \/ acquired clk p = RateLimiter.TimedOut ->
  executeRequest op request clk p = executeRequest op request' clk p /\
  (admitted clk p = false ->
   rateLimiter (snd (executeRequest op request clk p)) = rateLimiter p).
Proof.
  intros H. rewrite !executeRequest_paths.
  destruct (admitted clk p).
  - destruct H as [H|H]; [discriminate H|]. rewrite H.
    split; [reflexivity | discriminate].
  - split; [reflexivity | intros _; reflexivity].
Qed.

(** The ESPN provider of [ProviderProps], polled once its reset timeout is
    over; and the same provider with a closed circuit. *)
Definition at_61000 : Clock :=
  {| atAllow := 61000; acquireStart := 61000; acquireRounds := [(61000, 61000)];
     atFailure := 61500; atReopen := 61500 |}.

Definition espn_closed : Provider.t :=
  {| name := "ESPN";
     rateLimiter := rateLimiter ProviderProps.espn_open;
     circuitBreaker :=
       {| CircuitBreaker.config := ProviderProps.espn_breaker;
          CircuitBreaker.state := CircuitBreaker.CLOSED;
          CircuitBreaker.failureCount := 2;
          CircuitBreaker.successCount := 0;
          CircuitBreaker.requestCount := 3;
          CircuitBreaker.lastFailureTime := 5;
          CircuitBreaker.nextAttemptTime := 0 |} |}.

Definition network_down : Eff.result Error (list Game.t) :=
  Eff.Thrown (RequestError "ESPN API error: 503 Service Unavailable").

Lemma rejection_records_one_failure_witness :
  let '(outcome, p') :=
    executeRequest "getGames" network_down ProviderProps.at_1000 espn_closed in
  CircuitBreaker.failureCount (circuitBreaker p') = 3 /\
  CircuitBreaker.requestCount (circuitBreaker p') = 4.
Proof.
  destruct (executeRequest "getGames" network_down ProviderProps.at_1000 espn_closed)
    as [outcome p'] eqn:E.
  assert (Ho : exists e, outcome = Eff.Thrown e).
  { vm_compute in E. injection E as <- _. eauto. }
  destruct Ho as [e ->].
  destruct (rejection_records_one_failure "getGames" network_down ProviderProps.at_1000
              espn_closed e p' E) as (_ & _ & Hf & Hr).
  exact (conj Hf Hr).
Defined.

Lemma returns_iff_request_returned_witness :
  executeRequest "getGames" (Eff.Returned [] : Eff.result Error (list Game.t))
    ProviderProps.at_1000 espn_closed
  = (Eff.Returned [],
     {| name := "ESPN";
        rateLimiter := polled ProviderProps.at_1000 espn_closed;
        circuitBreaker :=
          CircuitBreaker.recordSuccess (asked ProviderProps.at_1000 espn_closed) |}).
Proof.
  apply (returns_iff_request_returned "getGames" (Eff.Returned []) ProviderProps.at_1000
           espn_closed).
  repeat split.
Defined.

Lemma request_not_made_witness :
  executeRequest "getGames" network_down ProviderProps.at_1000 ProviderProps.espn_open
  = executeRequest "getGames" (Eff.Returned []) ProviderProps.at_1000 ProviderProps.espn_open.
Proof.
  apply (request_not_made "getGames" network_down (Eff.Returned [])
           ProviderProps.at_1000 ProviderProps.espn_open).
  left. reflexivity.
Defined.

Lemma probe_decides_witness :
  let '(outcome, p') :=
    executeRequest "getGames" (Eff.Returned [] : Eff.result Error (list Game.t))
      at_61000 ProviderProps.espn_open in
  outcome = Eff.Returned [] /\
  CircuitBreaker.state (circuitBreaker p') = CircuitBreaker.CLOSED /\
  CircuitBreaker.requestCount (circuitBreaker p') = 0.
Proof.
  assert (Hdue : CircuitBreaker.nextAttemptTime (circuitBreaker ProviderProps.espn_open)
                 <= atAllow at_61000)
    by (vm_compute; discriminate).
  pose proof (probe_decides "getGames" (Eff.Returned [] : Eff.result Error (list Game.t))
                at_61000 ProviderProps.espn_open eq_refl Hdue eq_refl) as H.
  cbv zeta in H.
  destruct (executeRequest "getGames" (Eff.Returned []) at_61000 ProviderProps.espn_open)
    as [outcome p'].
  destruct H as [H _].
  assert (Hth : CircuitBreaker.successThreshold_or_1
                  (CircuitBreaker.config (circuitBreaker ProviderProps.espn_open)) <= 1)
    by (vm_compute; discriminate).
  destruct (H [] eq_refl Hth) as (Ho & Hs & _ & _ & Hr).
  exact (conj Ho (conj Hs Hr)).
Defined.

End ProviderMore.

(** ** In-memory cache: [has], the sweep and evictions *)

Module CacheMore.
Import Cache.

Section WithValue.
Context {V : Type}.
Implicit Types (cache : Cache.t V) (key : string).

(** An entry expired at one time is expired at every later time. *)
Lemma expired_later now t (entry : CacheEntry V) :
  now <= t -> expired now entry = true -> expired t entry = true.
Proof.
  unfold expired. intros Ht H. apply Qltb_lt in H. apply Qltb_lt.
  apply (Qlt_le_trans _ (inject_Z now)); [exact H|]. now rewrite <- Zle_Qle.
Qed.

(** What [get] returns, read off the map. *)
Lemma get_result key t cache :
  fst (get key t cache)
  = match cache !! key with
    | Some entry => if expired t entry then None else Some (value entry)
    | None => None
    end.
Proof.
  unfold get. destruct (cache !! key) as [entry|]; [|reflexivity].
  destruct (expired t entry); reflexivity.
Qed.

Lemma lookup_cleanup now cache key :
  cleanup now cache !! key
  = match cache !! key with
    | Some entry => if expired now entry then None else Some entry
    | None => None
    end.
Proof.
  unfold cleanup. rewrite map_lookup_filter.
  destruct (cache !! key) as [entry|]; [|reflexivity]. cbn.
  destruct (expired now entry) eqn:E.
  - rewrite option_guard_False; [reflexivity | cbn; congruence].
  - rewrite option_guard_True; [reflexivity | cbn; congruence].
Qed.

(** X13 ([has] is [get] without the value).  [has] answers true exactly
    when [get] at the same clock reading returns a value, and leaves the
    cache exactly as that [get] does (evicting the same expired entry). *)
Theorem has_agrees_with_get key now cache :
  has key now cache
  = (match fst (get key now cache) with Some _ => true | None => false end,
     snd (get key now cache)).
Proof.
  unfold has, get. destruct (cache !! key) as [entry|]; [|reflexivity].
  destruct (expired now entry); reflexivity.
Qed.

(** X14 (the sweep).  [cleanup] removes exactly the entries that have
    expired at its clock reading: every other entry is kept as it is, and
    no entry left in the cache is expired at that reading. *)
Theorem cleanup_removes_expired now cache :
  (forall key entry, cache !! key = Some entry ->
     cleanup now cache !! key = if expired now entry then None else Some entry) /\
  (forall key, cache !! key = None -> cleanup now cache !! key = None) /\
  (forall key entry, cleanup now cache !! key = Some entry -> expired now entry = false).
Proof.
  split; [|split].
  - intros key entry Hk. rewrite lookup_cleanup, Hk. reflexivity.
  - intros key Hk. rewrite lookup_cleanup, Hk. reflexivity.
  - intros key entry. rewrite lookup_cleanup.
    destruct (cache !! key) as [e|]; [|discriminate].
    destruct (expired now e) eqn:E; [discriminate|]. intros [= <-]. exact E.
Qed.

(** X15 (removals of expired entries cannot be observed).  Under a clock
    that does not go back, a [get] returns the same after a sweep, after
    another [get] and after a [has] as it would have returned without
    them. *)
Theorem expiry_removals_unobservable now t key key' cache :
  now <= t ->
  fst (get key t (cleanup now cache)) = fst (get key t cache) /\
  fst (get key t (snd (get key' now cache))) = fst (get key t cache) /\
  fst (get key t (snd (has key' now cache))) = fst (get key t cache).
Proof.
  intros Ht.
  assert (Hget : fst (get key t (snd (get key' now cache))) = fst (get key t cache)).
  { rewrite !get_result. unfold get at 1.
    destruct (cache !! key') as [e'|] eqn:Hk'; [|reflexivity].
    destruct (expired now e') eqn:E; [|reflexivity]. cbn [snd].
    destruct (decide (key' = key)) as [->|Hne].
    - rewrite lookup_delete_eq, Hk'. now rewrite (expired_later now t e' Ht E).
    - now rewrite lookup_delete_ne. }
  split; [|split].
  - rewrite !get_result, lookup_cleanup.
    destruct (cache !! key) as [entry|]; [|reflexivity].
    destruct (expired now entry) eqn:E; [|reflexivity].
    now rewrite (expired_later now t entry Ht E).
  - exact Hget.
  - rewrite has_agrees_with_get. exact Hget.
Qed.

End WithValue.

Definition two_entries : Cache.t string :=
  {[ "old" := {| value := "a"; expiresAt := 50%Q; cachedAt := 0 |};
     "new" := {| value := "b"; expiresAt := 5000%Q; cachedAt := 0 |} ]}.

Lemma cleanup_removes_expired_witness :
  cleanup 100 two_entries !! "old" = None /\
  cleanup 100 two_entries !! "new"
  = Some {| value := "b"; expiresAt := 5000%Q; cachedAt := 0 |}.
Proof.
  pose proof (cleanup_removes_expired 100 two_entries) as (H & _ & _).
  split.
  - exact (H "old" {| value := "a"; expiresAt := 50%Q; cachedAt := 0 |} eq_refl).
  - exact (H "new" {| value := "b"; expiresAt := 5000%Q; cachedAt := 0 |} eq_refl).
Defined.

Lemma expiry_removals_unobservable_witness :
  fst (get "new" 200 (cleanup 100 two_entries)) = fst (get "new" 200 two_entries) /\
  fst (get "new" 200 (snd (get "old" 100 two_entries))) = fst (get "new" 200 two_entries) /\
  fst (get "new" 200 (snd (has "old" 100 two_entries))) = fst (get "new" 200 two_entries).
Proof.
  apply (expiry_removals_unobservable 100 200 "new" "old" two_entries). lia.
Defined.

End CacheMore.

(** ** In-memory event bus: subscriptions *)

Module EventBusMore.
Import EventBus EventBusProps.

Section WithWorld.
Context {D W : Type}.
Implicit Types (s : World D W) (b : EventBus.t D W) (h : EventHandler D W)
  (hs : list (EventHandler D W)).

(** The state one [emit] leaves. *)
Lemma emit_state name (d : D) now s :
  let event := {| eventName := name; occurredAt := now; data := d |} in
  exists console',
    emit name d now s
    = (Eff.Returned tt,
       {| bus := {| handlers := handlers (bus s);
                    onceHandlers := delete name (onceHandlers (bus s)) |};
          console := console';
          world := run_all (default [] (handlers (bus s) !! name)
                            ++ default [] (onceHandlers (bus s) !! name))
                     event (world s) |}).
Proof.
  intros event. unfold emit, Eff.bind, Eff.get. fold event.
  unfold run_all. rewrite fold_left_app.
  destruct s as [[regs onces] cons w]. cbn [bus handlers onceHandlers world].
  assert (Hreg : exists cons1,
    match regs !! name with
    | Some regularHandlers =>
        dispatch ("Error in event handler for " +:+ name +:+ ":") regularHandlers event
    | None => Eff.ret tt
    end {| bus := {| handlers := regs; onceHandlers := onces |};
           console := cons; world := w |}
    = (Eff.Returned tt,
       {| bus := {| handlers := regs; onceHandlers := onces |}; console := cons1;
          world := fold_left (fun w h => snd (run h event w))
                     (default [] (regs !! name)) w |})).
  { destruct (regs !! name) as [hs|]; cbn [default].
    - pose proof (dispatch_returns ("Error in event handler for " +:+ name +:+ ":")
                    hs event {| bus := {| handlers := regs; onceHandlers := onces |};
                                console := cons; world := w |}) as H.
      destruct (dispatch _ hs event _) as [r [b1 cons1 w1]].
      destruct H as (-> & Hb & Hw). cbn in Hb, Hw. subst. eauto.
    - eexists. reflexivity. }
  destruct Hreg as (cons1 & ->). cbn [bus onceHandlers].
  destruct (onces !! name) as [hs|] eqn:Honce; cbn [default].
  - pose proof (dispatch_returns ("Error in once handler for " +:+ name +:+ ":")
                  hs event
                  {| bus := {| handlers := regs; onceHandlers := onces |};
                     console := cons1;
                     world := fold_left (fun w h => snd (run h event w))
                                (default [] (regs !! name)) w |}) as H.
    destruct (dispatch _ hs event _) as [r [b2 cons2 w2]].
    destruct H as (-> & Hb & Hw). cbn in Hb, Hw. subst.
    unfold delete_once, Eff.modify. cbn. eauto.
  - rewrite (delete_id _ _ Honce). cbn. eauto.
Qed.

(** X16 (once means once).  Of two successive emits of an event, the
    first runs the regular and then the once handlers of the event, the
    second runs the regular handlers only, and the once handlers of the
    event are gone. *)
Theorem once_handlers_run_once name (d1 d2 : D) t1 t2 s :
  let regular := default [] (handlers (bus s) !! name) in
  let once := default [] (onceHandlers (bus s) !! name) in
  let event1 := {| eventName := name; occurredAt := t1; data := d1 |} in
  let event2 := {| eventName := name; occurredAt := t2; data := d2 |} in
  let '(_, s1) := emit name d1 t1 s in
  let '(r2, s2) := emit name d2 t2 s1 in
  r2 = Eff.Returned tt /\
  world s2 = run_all regular event2 (run_all (regular ++ once) event1 (world s)) /\
  onceHandlers (bus s2) !! name = None /\
  getSubscriberCount name (bus s2) = length regular.
Proof.
  intros regular once event1 event2.
  destruct (emit_state name d1 t1 s) as (c1 & ->).
  match goal with |- context [emit name d2 t2 ?s1] =>
    destruct (emit_state name d2 t2 s1) as (c2 & ->) end.
  cbn [bus handlers onceHandlers world].
  rewrite lookup_delete_eq. cbn [default]. rewrite app_nil_r.
  unfold getSubscriberCount. cbn [handlers onceHandlers].
  rewrite lookup_delete_eq. cbn [default length]. fold regular.
  repeat split. apply Nat.add_0_r.
Qed.

Lemma set_add_idem h hs : set_add h (set_add h hs) = set_add h hs.
Proof.
  unfold set_add at 2.
  destruct (existsb (fun h' => Nat.eqb (hid h') (hid h)) hs) eqn:E.
  - unfold set_add. rewrite E. reflexivity.
  - unfold set_add. rewrite E, existsb_app. cbn. rewrite Nat.eqb_refl, orb_true_r.
    reflexivity.
Qed.

(** X17 (a handler is registered once).  Registering a handler again for
    the same event, with [on] or with [once], changes nothing: the
    subscribers of an event form a set. *)
Theorem on_twice name h b :
  on name h (on name h b) = on name h b /\
  once name h (once name h b) = once name h b.
Proof.
  unfold on, once; cbn [handlers onceHandlers].
  rewrite !lookup_insert_eq. cbn [from_option id].
  rewrite !set_add_idem, !insert_insert_eq. split; reflexivity.
Qed.

Lemma set_delete_add h hs :
  existsb (fun h' => Nat.eqb (hid h') (hid h)) hs = false ->
  set_delete h (set_add h hs) = hs.
Proof.
  intros Hnew. unfold set_add. rewrite Hnew. unfold set_delete.
  rewrite List.filter_app. cbn. rewrite Nat.eqb_refl. cbn. rewrite app_nil_r.
  induction hs as [|x hs IH]; [reflexivity|].
  cbn in Hnew |- *. apply orb_false_iff in Hnew as [Hx Hrest].
  rewrite Hx. cbn. f_equal. apply IH, Hrest.
Qed.

(** X18 ([off] undoes [on]).  Unsubscribing a handler right after
    subscribing it gives back the bus as it was, provided the handler was
    not already subscribed to the event (and the bus holds no empty
    subscriber set, as none of its methods leaves one). *)
Theorem off_on name h b :
  existsb (fun h' => Nat.eqb (hid h') (hid h)) (default [] (handlers b !! name)) = false ->
  handlers b !! name <> Some [] ->
  off name h (on name h b) = b.
Proof.
  intros Hnew Hne. unfold off, on. cbn [handlers onceHandlers].
  rewrite lookup_insert_eq, (set_delete_add h _ Hnew).
  destruct b as [regs onces]. cbn [handlers onceHandlers] in *.
  destruct (regs !! name) as [hs|] eqn:Hk; cbn [default].
  - destruct hs as [|x hs]; [congruence|]. cbn [length Nat.eqb].
    rewrite insert_insert_eq, (insert_id _ _ _ Hk). reflexivity.
  - cbn [length Nat.eqb]. rewrite delete_insert_eq, (delete_id _ _ Hk). reflexivity.
Qed.

End WithWorld.

Lemma once_handlers_run_once_witness :
  let s := {| bus := on "mixed.event" counting (once "mixed.event" counting new);
              console := []; world := 0%nat |} in
  let '(_, s1) := emit "mixed.event" tt 1 s in
  let '(r2, s2) := emit "mixed.event" tt 2 s1 in
  r2 = Eff.Returned tt /\ world s2 = 3%nat /\
  getSubscriberCount "mixed.event" (bus s2) = 1%nat.
Proof.
  intros s.
  pose proof (once_handlers_run_once "mixed.event" tt tt 1 2 s) as H. cbv zeta in H.
  destruct (emit "mixed.event" tt 1 s) as [r1 s1].
  destruct (emit "mixed.event" tt 2 s1) as [r2 s2].
  destruct H as (Hr & Hw & _ & Hc).
  exact (conj Hr (conj Hw Hc)).
Defined.

Lemma on_twice_witness :
  getSubscriberCount "test.event"
    (on "test.event" counting (on "test.event" counting (@new unit nat))) = 1%nat.
Proof.
  rewrite (proj1 (on_twice "test.event" counting new)). reflexivity.
Defined.

Lemma off_on_witness :
  let b := on "test.event" failing (@new unit nat) in
  off "test.event" counting (on "test.event" counting b) = b.
Proof.
  intros b. apply (off_on "test.event" counting b).
  - reflexivity.
  - discriminate.
Defined.

End EventBusMore.

(** ** Use cases: what is served from the cache, and for how long *)

Module UseCaseMore.

(** Expiry of an entry set with a whole number of seconds, in integers. *)
Lemma expired_after_set {V} (v : V) (ttl now now' t : Z) :
  Cache.expired t {| Cache.value := v;
                     Cache.expiresAt := (inject_Z now + inject_Z ttl * 1000)%Q;
                     Cache.cachedAt := now' |}
  = (now + ttl * 1000 <? t).
Proof.
  unfold Cache.expired. cbn [Cache.expiresAt].
  assert (E : (inject_Z now + inject_Z ttl * 1000 == inject_Z (now + ttl * 1000))%Q).
  { rewrite inject_Z_plus, inject_Z_mult. reflexivity. }
  destruct (now + ttl * 1000 <? t) eqn:Hlt.
  - apply Qltb_lt. rewrite E. rewrite <- Zlt_Qlt. now apply Z.ltb_lt.
  - apply Qltb_ge. rewrite E. rewrite <- Zle_Qle. now apply Z.ltb_ge.
Qed.

(** A [get] of the key just set, in integers. *)
Lemma get_after_set {V} (cache : Cache.t V) key (v : V) (ttl now now' t : Z) :
  Cache.get key t (Cache.set key v (inject_Z ttl) now now' cache)
  = if now + ttl * 1000 <? t
    then (None, delete key (Cache.set key v (inject_Z ttl) now now' cache))
    else (Some v, Cache.set key v (inject_Z ttl) now now' cache).
Proof.
  unfold Cache.get. rewrite CacheProps.lookup_set, expired_after_set. reflexivity.
Qed.

Section Scoreboard.
Import Scoreboard.

(** X19 (a scoreboard answer from the cache is fresh).  Whenever [execute]
    answers from the cache, the cached result carries its [cachedAt] and
    is at most 30 s old if it counts a live game, at most 5 min old
    otherwise, whatever TTL it was cached with. *)
Theorem scoreboard_hit_is_fresh findByWeek params clk env :
  fromCache (fst (execute findByWeek params clk env)) = true ->
  exists c t,
    fst (Cache.get (buildCacheKey params) (atGet clk) (cache env)) = Some c /\
    fst (execute findByWeek params clk env) = with_fromCache true c /\
    cachedAt (metadata c) = Some t /\
    atAge clk - t <= if 0 <? liveGameCount (metadata c) then 30000 else 300000.
Proof.
  unfold execute.
  destruct (Cache.get (buildCacheKey params) (atGet clk) (cache env)) as [cached cache1].
  cbn [fst].
  destruct cached as [c|]; [|discriminate].
  destruct (shouldRefreshCache (atAge clk) c) eqn:Hs; [discriminate|].
  intros _. unfold shouldRefreshCache in Hs.
  destruct (cachedAt (metadata c)) as [t|] eqn:Ht; [|discriminate].
  exists c, t. split; [reflexivity|]. split; [reflexivity|]. split; [exact Ht|].
  destruct (0 <? liveGameCount (metadata c)); apply Z.ltb_ge in Hs; lia.
Qed.

(** X20 (miss, then hit).  After [execute] has fetched and cached a
    scoreboard, a second call for the same parameters, made before the
    entry expires and while it is fresh, returns that result with
    [fromCache = true], leaves the cache alone, emits one cache-hit event
    and does not depend on the repository. *)
Theorem scoreboard_miss_then_hit findByWeek findByWeek' params clk1 clk2 env :
  fromCache (fst (execute findByWeek params clk1 env)) = false ->
  let '(result1, env1) := execute findByWeek params clk1 env in
  atGet clk2 <= atSet clk1 + calculateCacheTTL result1 * 1000 ->
  shouldRefreshCache (atAge clk2) result1 = false ->
  execute findByWeek' params clk2 env1
  = (with_fromCache true result1,
     {| cache := cache env1;
        emitted := emitted env1 ++ [CacheHit params (cachedAt (metadata result1))] |}).
Proof.
  unfold execute at 1 2.
  destruct (Cache.get (buildCacheKey params) (atGet clk1) (cache env)) as [cached cache1].
  destruct (match cached with
            | Some c => if shouldRefreshCache (atAge clk1) c then None else Some c
            | None => None
            end) as [c|]; [intros H; discriminate H|].
  intros _. cbn [fst snd].
  set (result1 := buildResult params _ (atBuild clk1)).
  intros Hexp Hfresh. unfold execute. cbn [cache].
  rewrite get_after_set.
  destruct (_ <? atGet clk2) eqn:E; [apply Z.ltb_lt in E; lia|].
  rewrite Hfresh. reflexivity.
Qed.

End Scoreboard.

Section LiveGames.
Import LiveGames.

(** X21 (live games are served from the cache for 15 s).  After [execute]
    has fetched and cached the live games, a later call returns that very
    result with [fromCache = true], without consulting the repository,
    as long as its clock reading is at most 15 s after the reading at
    which the entry was set; any later call fetches again. *)
Theorem live_games_served_for_ttl findLive findLive' clk1 clk2 env :
  fst (Cache.get CACHE_KEY (atGet clk1) (cache env)) = None ->
  let '(result1, env1) := execute findLive clk1 env in
  games result1 = findLive /\ fromCache result1 = false /\
  (atGet clk2 <= atSet clk1 + 15000 ->
   execute findLive' clk2 env1
   = (with_fromCache true result1,
      {| cache := cache env1;
         emitted := emitted env1 ++
           [CacheHit (atBuild clk1) (Z.of_nat (length findLive))] |})) /\
  (atSet clk1 + 15000 < atGet clk2 ->
   games (fst (execute findLive' clk2 env1)) = findLive' /\
   fromCache (fst (execute findLive' clk2 env1)) = false).
Proof.
  unfold execute at 1.
  destruct (Cache.get CACHE_KEY (atGet clk1) (cache env)) as [cached cache1].
  cbn [fst]. intros ->. cbn [games fromCache].
  split; [reflexivity|]. split; [reflexivity|].
  unfold execute. cbn [cache]. rewrite get_after_set.
  change (CACHE_TTL * 1000) with 15000.
  split; intros H.
  - destruct (_ <? atGet clk2) eqn:E; [apply Z.ltb_lt in E; lia|]. reflexivity.
  - destruct (_ <? atGet clk2) eqn:E; [|apply Z.ltb_ge in E; lia].
    split; reflexivity.
Qed.

End LiveGames.

Section GameDetails.
Import GameDetails.

Lemma staleness_window_is_ttl now c g :
  game c = Some g ->
  shouldRefreshCache now c = (calculateCacheTTL g * 1000 <? now - cachedAt c).
Proof.
  intros Hg. unfold shouldRefreshCache, calculateCacheTTL. rewrite Hg.
  destruct (Game.isLive g); [reflexivity|].
  destruct (Game.isCompleted g); reflexivity.
Qed.

(** X22 (game details: one policy for staleness and TTL).  The age beyond
    which a cached game is refreshed is exactly the TTL it is cached with
    (15 s live, 1 h completed, 5 min otherwise); so whenever [execute]
    answers from the cache, the answer holds a game and is no older than
    that game's TTL. *)
Theorem game_details_hit_is_fresh findById params clk env :
  fromCache (fst (execute findById params clk env)) = true ->
  exists c g,
    fst (Cache.get (buildCacheKey (gameId params)) (atGet clk) (cache env)) = Some c /\
    fst (execute findById params clk env) = with_fromCache true c /\
    game c = Some g /\
    atAge clk - cachedAt c <= calculateCacheTTL g * 1000.
Proof.
  unfold execute.
  destruct (Cache.get (buildCacheKey (gameId params)) (atGet clk) (cache env))
    as [cached cache1].
  cbn [fst].
  destruct (usable (atAge clk) cached) as [c'|] eqn:Hu.
  - intros _. unfold usable in Hu.
    destruct cached as [c|]; [|discriminate].
    destruct (game c) as [g|] eqn:Hg; [|discriminate].
    destruct (shouldRefreshCache (atAge clk) c) eqn:Hs; [discriminate|].
    injection Hu as <-. exists c, g.
    split; [reflexivity|]. split; [reflexivity|]. split; [exact Hg|].
    rewrite (staleness_window_is_ttl _ _ _ Hg) in Hs. apply Z.ltb_ge in Hs. exact Hs.
  - destruct (findById (gameId params)); cbn; intros H; discriminate H.
Qed.

(** X23 (a found game is served from the cache within its TTL).  After
    [execute] has fetched a game and cached it, a second call for the same
    id, made while the entry has not expired and the game is not stale,
    returns that result with [fromCache = true], leaves the cache alone,
    emits one cache-hit event and does not depend on the repository. *)
Theorem game_details_miss_then_hit findById findById' params clk1 clk2 env g :
  fromCache (fst (execute findById params clk1 env)) = false ->
  findById (gameId params) = Some g ->
  atGet clk2 <= atSet clk1 + calculateCacheTTL g * 1000 ->
  atAge clk2 - atBuild clk1 <= calculateCacheTTL g * 1000 ->
  let '(result1, env1) := execute findById params clk1 env in
  game result1 = Some g /\
  execute findById' params clk2 env1
  = (with_fromCache true result1,
     {| cache := cache env1;
        emitted := emitted env1 ++ [CacheHit (gameId params) (atBuild clk1)] |}).
Proof.
  unfold execute at 1 2.
  destruct (Cache.get (buildCacheKey (gameId params)) (atGet clk1) (cache env))
    as [cached cache1].
  destruct (usable (atAge clk1) cached) as [c|]; [intros H; discriminate H|].
  intros _ Hg Hexp Hage. rewrite Hg. cbn [game]. split; [reflexivity|].
  unfold execute. cbn [cache]. rewrite get_after_set.
  destruct (_ <? atGet clk2) eqn:E; [apply Z.ltb_lt in E; lia|].
  unfold usable. cbn [game].
  rewrite (staleness_window_is_ttl (atAge clk2)
             {| game := Some g; fromCache := false; cachedAt := atBuild clk1 |} g eq_refl).
  cbn [cachedAt].
  destruct (_ <? atAge clk2 - atBuild clk1) eqn:E2; [apply Z.ltb_lt in E2; lia|].
  reflexivity.
Qed.

End GameDetails.

(** Sample runs: week 10 of 2025 with one game in progress, fetched at
    time 1000 and asked for again at time 20000; the live games fetched
    at 1000 and asked for again at 16000; a final game fetched at 1000 and
    asked for again half an hour later. *)
Definition week_10_params : Scoreboard.GetScoreboardParams :=
  {| Scoreboard.season := 2025; Scoreboard.week := 10; Scoreboard.seasonType := None |}.

Definition week_10_games : list Game.t :=
  [ScoreboardProps.game_with "1" Game.FINAL;
   ScoreboardProps.game_with "2" Game.IN_PROGRESS].

Definition sb_clock (t : Z) : Scoreboard.Clock :=
  {| Scoreboard.atGet := t; Scoreboard.atAge := t; Scoreboard.atBuild := t;
     Scoreboard.atSet := t; Scoreboard.atSet' := t |}.

Definition sb_empty : Scoreboard.Env :=
  {| Scoreboard.cache := ∅; Scoreboard.emitted := [] |}.

Lemma scoreboard_miss_then_hit_witness :
  let '(result1, env1) :=
    Scoreboard.execute (fun _ _ _ => week_10_games) week_10_params (sb_clock 1000) sb_empty in
  Scoreboard.execute (fun _ _ _ => []) week_10_params (sb_clock 20000) env1
  = (Scoreboard.with_fromCache true result1,
     {| Scoreboard.cache := Scoreboard.cache env1;
        Scoreboard.emitted := Scoreboard.emitted env1 ++
          [Scoreboard.CacheHit week_10_params
             (Scoreboard.cachedAt (Scoreboard.metadata result1))] |}).
Proof.
  pose proof (scoreboard_miss_then_hit (fun _ _ _ => week_10_games) (fun _ _ _ => [])
                week_10_params (sb_clock 1000) (sb_clock 20000) sb_empty eq_refl) as H.
  destruct (Scoreboard.execute (fun _ _ _ => week_10_games) week_10_params
              (sb_clock 1000) sb_empty) as [result1 env1] eqn:E.
  vm_compute in E. injection E as <- <-.
  apply H; [vm_compute; discriminate | reflexivity].
Defined.

Lemma scoreboard_hit_is_fresh_witness :
  let env1 :=
    snd (Scoreboard.execute (fun _ _ _ => week_10_games) week_10_params
           (sb_clock 1000) sb_empty) in
  exists c t,
    fst (Cache.get (Scoreboard.buildCacheKey week_10_params) 20000 (Scoreboard.cache env1))
    = Some c /\
    fst (Scoreboard.execute (fun _ _ _ => []) week_10_params (sb_clock 20000) env1)
    = Scoreboard.with_fromCache true c /\
    Scoreboard.cachedAt (Scoreboard.metadata c) = Some t /\
    20000 - t <= if 0 <? Scoreboard.liveGameCount (Scoreboard.metadata c)
                 then 30000 else 300000.
Proof.
  intros env1.
  exact (scoreboard_hit_is_fresh (fun _ _ _ => []) week_10_params (sb_clock 20000) env1
           eq_refl).
Defined.

Definition lg_clock (t : Z) : LiveGames.Clock :=
  {| LiveGames.atGet := t; LiveGames.atBuild := t; LiveGames.atSet := t;
     LiveGames.atSet' := t |}.

Definition lg_empty : LiveGames.Env :=
  {| LiveGames.cache := ∅; LiveGames.emitted := [] |}.

Lemma live_games_served_for_ttl_witness :
  let live := [ScoreboardProps.game_with "2" Game.IN_PROGRESS] in
  let '(result1, env1) := LiveGames.execute live (lg_clock 1000) lg_empty in
  LiveGames.execute [] (lg_clock 16000) env1
  = (LiveGames.with_fromCache true result1,
     {| LiveGames.cache := LiveGames.cache env1;
        LiveGames.emitted := LiveGames.emitted env1 ++ [LiveGames.CacheHit 1000 1] |}) /\
  LiveGames.games (fst (LiveGames.execute [] (lg_clock 16001) env1)) = [].
Proof.
  intros live.
  pose proof (live_games_served_for_ttl live [] (lg_clock 1000) (lg_clock 16000) lg_empty
                eq_refl) as H1.
  pose proof (live_games_served_for_ttl live [] (lg_clock 1000) (lg_clock 16001) lg_empty
                eq_refl) as H2.
  destruct (LiveGames.execute live (lg_clock 1000) lg_empty) as [result1 env1].
  destruct H1 as (_ & _ & Hhit & _). destruct H2 as (_ & _ & _ & Hmiss).
  split.
  - apply Hhit. vm_compute. discriminate.
  - apply Hmiss. reflexivity.
Defined.

Definition gd_clock (t : Z) : GameDetails.Clock :=
  {| GameDetails.atGet := t; GameDetails.atAge := t; GameDetails.atBuild := t;
     GameDetails.atSet := t; GameDetails.atSet' := t |}.

Definition gd_empty : GameDetails.Env :=
  {| GameDetails.cache := ∅; GameDetails.emitted := [] |}.

Definition final_game : Game.t := ScoreboardProps.game_with "7" Game.FINAL.

Lemma game_details_miss_then_hit_witness :
  let '(result1, env1) :=
    GameDetails.execute (fun _ => Some final_game) {| GameDetails.gameId := "7" |}
      (gd_clock 1000) gd_empty in
  GameDetails.game result1 = Some final_game /\
  GameDetails.execute (fun _ => None) {| GameDetails.gameId := "7" |}
    (gd_clock 1801000) env1
  = (GameDetails.with_fromCache true result1,
     {| GameDetails.cache := GameDetails.cache env1;
        GameDetails.emitted := GameDetails.emitted env1 ++
          [GameDetails.CacheHit "7" 1000] |}).
Proof.
  apply (game_details_miss_then_hit (fun _ => Some final_game) (fun _ => None)
           {| GameDetails.gameId := "7" |} (gd_clock 1000) (gd_clock 1801000) gd_empty
           final_game).
  - reflexivity.
  - reflexivity.
  - vm_compute. discriminate.
  - vm_compute. discriminate.
Defined.

Lemma game_details_hit_is_fresh_witness :
  let env1 :=
    snd (GameDetails.execute (fun _ => Some final_game) {| GameDetails.gameId := "7" |}
           (gd_clock 1000) gd_empty) in
  exists c g,
    fst (Cache.get (GameDetails.buildCacheKey "7") 1801000 (GameDetails.cache env1))
    = Some c /\
    fst (GameDetails.execute (fun _ => None) {| GameDetails.gameId := "7" |}
           (gd_clock 1801000) env1)
    = GameDetails.with_fromCache true c /\
    GameDetails.game c = Some g /\
    1801000 - GameDetails.cachedAt c <= GameDetails.calculateCacheTTL g * 1000.
Proof.
  intros env1.
  exact (game_details_hit_is_fresh (fun _ => None) {| GameDetails.gameId := "7" |}
           (gd_clock 1801000) env1 eq_refl).
Defined.

End UseCaseMore.

(** ** Schedule: ties *)

Module ScheduleMore.
Import Schedule.

Section Stable.
Context {A : Type} (compareFn : A -> A -> Z) (p : A -> bool).

(** The elements selected by [p] do not precede one another strictly. *)
Hypothesis tied : forall x y, p x = true -> p y = true -> compareFn x y <= 0.

Lemma filter_insert x l :
  List.filter p (JsArray.insert compareFn x l)
  = if p x then x :: List.filter p l else List.filter p l.
Proof.
  induction l as [|y l IH]; cbn [JsArray.insert List.filter].
  - destruct (p x); reflexivity.
  - destruct (compareFn x y <=? 0) eqn:E; cbn [List.filter].
    + destruct (p x); reflexivity.
    + rewrite IH. destruct (p x) eqn:Hx, (p y) eqn:Hy; try reflexivity.
      apply Z.leb_gt in E. pose proof (tied x y Hx Hy). lia.
Qed.

Lemma filter_sort l :
  List.filter p (JsArray.sort compareFn l) = List.filter p l.
Proof.
  induction l as [|x l IH]; [reflexivity|].
  unfold JsArray.sort in *. cbn [foldr List.filter].
  rewrite filter_insert, IH. reflexivity.
Qed.

End Stable.

(** Kick-off at time [k]. *)
Definition at_time (k : Z) (g : Game.t) : bool := Game.scheduledAt g =? k.

(** X24 (ties keep the repository's order).  In the envelope [execute]
    builds on a miss or a stale entry, the games scheduled at any one time
    appear in the order in which the repository returned them. *)
Theorem schedule_ties_keep_fetch_order repo params clk env k :
  ScheduleProps.miss_or_stale params clk env ->
  List.filter (at_time k) (games (fst (execute repo params clk env)))
  = List.filter (at_time k) (List.filter ScheduleProps.unplayed (fetch repo params)).
Proof.
  unfold ScheduleProps.miss_or_stale, execute. intros Hmiss.
  destruct (Cache.get (buildCacheKey params) (atGet clk) (cache env)) as [cached cache1].
  cbn [fst] in Hmiss.
  assert (Hfresh :
    match cached with
    | Some c => if shouldRefreshCache (atAge clk) c then None else Some c
    | None => None
    end = None).
  { destruct cached as [c|]; [rewrite Hmiss|]; reflexivity. }
  rewrite Hfresh. cbn [fst games].
  apply filter_sort. intros x y Hx Hy. unfold at_time in Hx, Hy.
  apply Z.eqb_eq in Hx, Hy. unfold byScheduledAt. lia.
Qed.

Lemma schedule_ties_keep_fetch_order_witness :
  List.filter (at_time 200)
    (games (fst (execute ScheduleProps.sample_repo ScheduleProps.sample_params
                   ScheduleProps.sample_clock ScheduleProps.empty_env)))
  = [ScheduleProps.game_at "c" Game.SCHEDULED 200;
     ScheduleProps.game_at "e" Game.POSTPONED 200].
Proof.
  rewrite (schedule_ties_keep_fetch_order ScheduleProps.sample_repo
             ScheduleProps.sample_params ScheduleProps.sample_clock
             ScheduleProps.empty_env 200 I).
  reflexivity.
Defined.

End ScheduleMore.

(** ** Value objects *)

Module ValueObjectsMore.

Lemma clock_new_whole (m s : Z) :
  GameClock.new (JsNumber.of_Z m) (JsNumber.of_Z s)
  = if (m <? 0) || (15 <? m) then None
    else if (s <? 0) || (59 <? s) then None
    else Some {| GameClock.minutes := JsNumber.of_Z m;
                 GameClock.seconds := JsNumber.of_Z s |}.
Proof.
  unfold GameClock.new, JsNumber.gtb. rewrite !JsNumberProps.ltb_of_Z. reflexivity.
Qed.

Lemma clock_new_Some (m s : Z) c :
  GameClock.new (JsNumber.of_Z m) (JsNumber.of_Z s) = Some c ->
  0 <= m <= 15 /\ 0 <= s <= 59 /\
  c = {| GameClock.minutes := JsNumber.of_Z m; GameClock.seconds := JsNumber.of_Z s |}.
Proof.
  rewrite clock_new_whole.
  destruct (m <? 0) eqn:E1, (15 <? m) eqn:E2; cbn; try discriminate.
  destruct (s <? 0) eqn:E3, (59 <? s) eqn:E4; cbn; try discriminate.
  intros [= <-]. apply Z.ltb_ge in E1, E2, E3, E4. auto with zarith.
Qed.

Lemma clock_new_in_range (m s : Z) :
  0 <= m <= 15 -> 0 <= s <= 59 ->
  GameClock.new (JsNumber.of_Z m) (JsNumber.of_Z s)
  = Some {| GameClock.minutes := JsNumber.of_Z m; GameClock.seconds := JsNumber.of_Z s |}.
Proof.
  intros Hm Hs. rewrite clock_new_whole.
  assert (E1 : (m <? 0) = false) by (apply Z.ltb_ge; lia).
  assert (E2 : (15 <? m) = false) by (apply Z.ltb_ge; lia).
  assert (E3 : (s <? 0) = false) by (apply Z.ltb_ge; lia).
  assert (E4 : (59 <? s) = false) by (apply Z.ltb_ge; lia).
  rewrite E1, E2, E3, E4. reflexivity.
Qed.

Lemma totalSeconds_whole (m s : Z) :
  GameClock.totalSeconds
    {| GameClock.minutes := JsNumber.of_Z m; GameClock.seconds := JsNumber.of_Z s |}
  = JsNumber.of_Z (m * 60 + s).
Proof.
  unfold GameClock.totalSeconds. cbn [GameClock.minutes GameClock.seconds].
  rewrite JsNumberProps.mul_of_Z, JsNumberProps.add_of_Z. reflexivity.
Qed.

Lemma fromSeconds_whole (n : Z) :
  GameClock.fromSeconds (JsNumber.of_Z n)
  = GameClock.new (JsNumber.of_Z (n / 60)) (JsNumber.of_Z (Z.rem n 60)).
Proof.
  unfold GameClock.fromSeconds.
  rewrite JsNumberProps.floor_div_of_Z, JsNumberProps.rem_of_Z by lia. reflexivity.
Qed.

(** X25 (clock and seconds).  [fromSeconds] undoes [totalSeconds] on every
    clock of whole minutes and seconds the constructor accepts; of the whole
    totals it accepts exactly those from 0 to 959 (15:59), giving a clock of
    that many seconds, and throws on every other.  The constructor accepts
    more than such clocks, and on those the round trip fails: half a minute,
    0.5:00, comes back as 0:30, and 15 minutes with seconds that are not a
    number (NaN) comes back with NaN for both. *)
Theorem clock_seconds_roundtrip :
  (forall (m s : Z) c,
     GameClock.new (JsNumber.of_Z m) (JsNumber.of_Z s) = Some c ->
     GameClock.fromSeconds (GameClock.totalSeconds c) = Some c) /\
  (forall n : Z, 0 <= n <= 959 ->
     exists c, GameClock.fromSeconds (JsNumber.of_Z n) = Some c /\
               GameClock.totalSeconds c = JsNumber.of_Z n) /\
  (forall n : Z, n < 0 \/ 959 < n -> GameClock.fromSeconds (JsNumber.of_Z n) = None) /\
  (exists c c',
     GameClock.new (JsNumber.Num (1 # 2)) (JsNumber.of_Z 0) = Some c /\
     GameClock.fromSeconds (GameClock.totalSeconds c) = Some c' /\
     JsNumber.eqb (GameClock.minutes c') (JsNumber.of_Z 0) = true /\
     JsNumber.eqb (GameClock.seconds c') (JsNumber.of_Z 30) = true) /\
  (exists c c',
     GameClock.new (JsNumber.of_Z 15) JsNumber.NaN = Some c /\
     GameClock.fromSeconds (GameClock.totalSeconds c) = Some c' /\
     GameClock.minutes c' = JsNumber.NaN /\ GameClock.seconds c' = JsNumber.NaN).
Proof.
  split; [|split; [|split; [|split]]].
  - intros m s c H. apply clock_new_Some in H as (Hm & Hs & ->).
    rewrite totalSeconds_whole, fromSeconds_whole.
    rewrite Z.rem_mod_nonneg by lia.
    replace ((m * 60 + s) / 60) with m by (apply (Z.div_unique _ 60 m s); lia).
    replace ((m * 60 + s) mod 60) with s by (apply (Z.mod_unique _ 60 m s); lia).
    apply clock_new_in_range; lia.
  - intros n Hn. rewrite fromSeconds_whole.
    rewrite Z.rem_mod_nonneg by lia.
    pose proof (Z.div_mod n 60 ltac:(lia)) as Hdm.
    pose proof (Z.mod_pos_bound n 60 ltac:(lia)) as Hmod.
    assert (Hdiv : 0 <= n / 60 <= 15).
    { split; [apply Z.div_pos; lia|].
      assert (n / 60 < 16) by (apply Z.div_lt_upper_bound; lia). lia. }
    rewrite clock_new_in_range by lia.
    eexists. split; [reflexivity|]. rewrite totalSeconds_whole. f_equal. lia.
  - intros n Hn. rewrite fromSeconds_whole, clock_new_whole.
    destruct Hn as [Hn|Hn].
    + assert (E : (n / 60 <? 0) = true).
      { apply Z.ltb_lt. apply Z.div_lt_upper_bound; lia. }
      rewrite E. reflexivity.
    + assert (E : (15 <? n / 60) = true).
      { apply Z.ltb_lt. assert (16 <= n / 60) by (apply Z.div_le_lower_bound; lia). lia. }
      rewrite E, orb_true_r. reflexivity.
  - eexists. eexists. split; [reflexivity|].
    split; [vm_compute; reflexivity|]. split; reflexivity.
  - eexists. eexists. split; [reflexivity|].
    split; [vm_compute; reflexivity|]. split; reflexivity.
Qed.

Lemma clock_seconds_roundtrip_witness :
  GameClock.fromSeconds (JsNumber.of_Z 125)
  = Some {| GameClock.minutes := JsNumber.of_Z 2; GameClock.seconds := JsNumber.of_Z 5 |} /\
  (exists c, GameClock.fromSeconds (JsNumber.of_Z 959) = Some c /\
             GameClock.totalSeconds c = JsNumber.of_Z 959) /\
  GameClock.fromSeconds (JsNumber.of_Z 960) = None.
Proof.
  destruct clock_seconds_roundtrip as (H1 & H2 & H3 & _).
  split; [exact (H1 2 5 _ eq_refl)|].
  split; [apply H2; lia | apply H3; lia].
Defined.

Lemma periodHomeTotal_snoc ps p :
  Score.periodHomeTotal (ps ++ [p]) = Score.periodHomeTotal ps + Score.p_home p.
Proof. unfold Score.periodHomeTotal. rewrite fold_left_app. reflexivity. Qed.

Lemma periodAwayTotal_snoc ps p :
  Score.periodAwayTotal (ps ++ [p]) = Score.periodAwayTotal ps + Score.p_away p.
Proof. unfold Score.periodAwayTotal. rewrite fold_left_app. reflexivity. Qed.

Lemma score_new_Some h a ps :
  is_Some (Score.new h a ps) <->
  0 <= h /\ 0 <= a /\
  (ps = [] \/ (Score.periodHomeTotal ps = h /\ Score.periodAwayTotal ps = a)).
Proof.
  unfold Score.new.
  destruct (h <? 0) eqn:E1; cbn [orb].
  { apply Z.ltb_lt in E1. split; [intros [x H]; discriminate H | lia]. }
  destruct (a <? 0) eqn:E2; cbn [orb].
  { apply Z.ltb_lt in E2. split; [intros [x H]; discriminate H | lia]. }
  apply Z.ltb_ge in E1, E2.
  destruct ps as [|p ps].
  - cbn. split; [auto | eauto].
  - assert (El : (0 <? Z.of_nat (length (p :: ps))) = true)
      by (apply Z.ltb_lt; cbn [length]; lia).
    rewrite El. cbn [andb].
    destruct (Score.periodHomeTotal (p :: ps) =? h) eqn:Eh;
      destruct (Score.periodAwayTotal (p :: ps) =? a) eqn:Ea; cbn [negb orb].
    + apply Z.eqb_eq in Eh, Ea. split; [auto | eauto].
    + apply Z.eqb_neq in Ea.
      split; [intros [x H]; discriminate H|].
      intros (_ & _ & [H|[_ H]]); [discriminate H | contradiction].
    + apply Z.eqb_neq in Eh.
      split; [intros [x H]; discriminate H|].
      intros (_ & _ & [H|[H _]]); [discriminate H | contradiction].
    + apply Z.eqb_neq in Eh.
      split; [intros [x H]; discriminate H|].
      intros (_ & _ & [H|[H _]]); [discriminate H | contradiction].
Qed.

(** X26 (a period breakdown locks the totals).  On a score the constructor
    accepted with a non-empty list of periods, [addPeriod] succeeds only
    for a scoreless period, and [withScores(home, away)] without new
    periods succeeds only when the totals are the ones the score already
    has; every other call throws. *)
Theorem period_breakdown_locks_totals h a ps s :
  Score.new h a ps = Some s -> ps <> [] ->
  (forall p, is_Some (Score.addPeriod s p) <-> Score.p_home p = 0 /\ Score.p_away p = 0) /\
  (forall h' a', is_Some (Score.withScores s h' a' None) <-> h' = h /\ a' = a).
Proof.
  intros Hnew Hne.
  assert (Hok : is_Some (Score.new h a ps)) by (rewrite Hnew; eauto).
  apply score_new_Some in Hok as (Hh & Ha & [->|[Hsh Hsa]]); [congruence|].
  assert (Hs : s = {| Score.home := h; Score.away := a; Score.periods := ps |}).
  { unfold Score.new in Hnew.
    repeat match type of Hnew with
           | (if ?b then _ else _) = _ => destruct b; [discriminate Hnew|]
           end.
    now injection Hnew as <-. }
  subst s. split.
  - intros p. unfold Score.addPeriod. cbn [Score.home Score.away Score.periods].
    rewrite score_new_Some, periodHomeTotal_snoc, periodAwayTotal_snoc.
    split.
    + intros (_ & _ & [H|[H1 H2]]); [destruct ps; discriminate H | lia].
    + intros [H1 H2]. split; [exact Hh|]. split; [exact Ha|]. right. lia.
  - intros h' a'. unfold Score.withScores. cbn [Score.periods from_option id].
    rewrite score_new_Some. split.
    + intros (_ & _ & [H|[H1 H2]]); [congruence | lia].
    + intros [-> ->]. split; [exact Hh|]. split; [exact Ha|]. now right.
Qed.

Definition first_quarter : Score.t :=
  {| Score.home := 7; Score.away := 3;
     Score.periods := [{| Score.p_home := 7; Score.p_away := 3 |}] |}.

Lemma period_breakdown_locks_totals_witness :
  Score.addPeriod first_quarter {| Score.p_home := 7; Score.p_away := 0 |} = None /\
  is_Some (Score.addPeriod first_quarter {| Score.p_home := 0; Score.p_away := 0 |}) /\
  Score.withScores first_quarter 14 3 None = None.
Proof.
  destruct (period_breakdown_locks_totals 7 3
              [{| Score.p_home := 7; Score.p_away := 3 |}] first_quarter eq_refl)
    as [Hadd Hwith]; [discriminate|].
  split; [|split].
  - destruct (Score.addPeriod first_quarter {| Score.p_home := 7; Score.p_away := 0 |})
      eqn:E; [|reflexivity].
    assert (Hs : is_Some (Score.addPeriod first_quarter
                            {| Score.p_home := 7; Score.p_away := 0 |}))
      by (rewrite E; eauto).
    apply Hadd in Hs. destruct Hs as [Hs _]. discriminate Hs.
  - apply Hadd. split; reflexivity.
  - destruct (Score.withScores first_quarter 14 3 None) eqn:E; [|reflexivity].
    assert (Hs : is_Some (Score.withScores first_quarter 14 3 None)) by (rewrite E; eauto).
    apply Hwith in Hs. destruct Hs as [Hs _]. discriminate Hs.
Defined.

End ValueObjectsMore.

(** ** The ESPN status transformer *)

Module TransformerMore.
Import Transformer.

(** X27 (what the transformer calls live, completed, scheduled).  The
    status of a transformed game is one of FINAL, SCHEDULED, IN_PROGRESS
    and HALFTIME; it is live exactly when ESPN does not flag the event
    completed and its state, in any letter case, is "in"; it is completed
    exactly when the event is flagged completed or its state is "post";
    and in every other case it is SCHEDULED. *)
Theorem transformer_status_classes status :
  let st := toGameStatus status in
  let state := toLowerCase (Transformer.state status) in
  (st = Game.FINAL \/ st = Game.SCHEDULED \/ st = Game.IN_PROGRESS \/ st = Game.HALFTIME) /\
  (Game.isLiveStatus st = true <-> completed status = false /\ state = "in") /\
  (Game.isCompletedStatus st = true <-> completed status = true \/ state = "post") /\
  (Game.isLiveStatus st = false -> Game.isCompletedStatus st = false ->
   st = Game.SCHEDULED).
Proof.
  intros st state. subst st. unfold toGameStatus. fold state.
  destruct (completed status);
    destruct (String.eqb state "pre") eqn:E1;
    destruct (String.eqb state "in") eqn:E2;
    destruct (String.eqb state "post") eqn:E3;
    destruct (atHalftime status); cbn;
    rewrite ?String.eqb_eq, ?String.eqb_neq in *;
    repeat split; intros; auto;
    try match goal with H : _ /\ _ |- _ => destruct H end;
    try match goal with H : _ \/ _ |- _ => destruct H end;
    try congruence; auto.
Qed.

(** X28 (half-time and periods).  A game the transformer reports at
    HALFTIME also gets the period HALFTIME; the period is HALFTIME exactly
    when ESPN's period is 2 and its clock 0 (whatever the state), OT
    exactly when the period is above 4, absent exactly when it is below 1,
    and otherwise ESPN's own number, between 1 and 4. *)
Theorem halftime_and_periods status :
  (toGameStatus status = Game.HALFTIME -> toPeriod status = Some HALFTIME) /\
  (toPeriod status = Some HALFTIME <->
   (period status == 2)%Q /\ (clock status == 0)%Q) /\
  (toPeriod status = Some OT <-> (4 < period status)%Q) /\
  (toPeriod status = None <-> (period status < 1)%Q) /\
  (forall n, toPeriod status = Some (Quarter n) ->
     n = period status /\ (1 <= n)%Q /\ (n <= 4)%Q).
Proof.
  assert (Hhalf : atHalftime status = true <->
                  (period status == 2)%Q /\ (clock status == 0)%Q).
  { unfold atHalftime. rewrite andb_true_iff, !Qeq_bool_iff. reflexivity. }
  split; [|split; [|split; [|split]]].
  - unfold toGameStatus, toPeriod.
    destruct (completed status); [discriminate|].
    destruct (String.eqb _ "pre"); [discriminate|].
    destruct (String.eqb _ "in").
    + destruct (atHalftime status); [reflexivity | discriminate].
    + destruct (String.eqb _ "post"); discriminate.
  - rewrite <- Hhalf. unfold toPeriod.
    destruct (atHalftime status); [tauto|].
    destruct (Qltb 4 (period status)); [split; discriminate|].
    destruct (Qleb 1 (period status) && Qleb (period status) 4); split; discriminate.
  - unfold toPeriod. destruct (atHalftime status) eqn:Eh.
    + destruct (proj1 Hhalf eq_refl) as [Hp _]. split; [discriminate | intros H; lra].
    + destruct (Qltb 4 (period status)) eqn:E4.
      * apply Qltb_lt in E4. tauto.
      * apply Qltb_ge in E4.
        destruct (Qleb 1 (period status) && Qleb (period status) 4);
          (split; [discriminate | intros H; lra]).
  - unfold toPeriod. destruct (atHalftime status) eqn:Eh.
    + destruct (proj1 Hhalf eq_refl) as [Hp _]. split; [discriminate | intros H; lra].
    + destruct (Qltb 4 (period status)) eqn:E4.
      * apply Qltb_lt in E4. split; [discriminate | intros H; lra].
      * apply Qltb_ge in E4.
        destruct (Qleb 1 (period status)) eqn:E1; cbn [andb].
        -- apply Qleb_le in E1.
           assert (E5 : Qleb (period status) 4 = true) by now apply Qleb_le.
           rewrite E5. split; [discriminate | intros H; lra].
        -- apply Qleb_gt in E1. tauto.
  - intros n. unfold toPeriod.
    destruct (atHalftime status); [discriminate|].
    destruct (Qltb 4 (period status)); [discriminate|].
    destruct (Qleb 1 (period status)) eqn:E1; cbn [andb]; [|discriminate].
    destruct (Qleb (period status) 4) eqn:E4; [|discriminate].
    intros [= <-]. apply Qleb_le in E1, E4. auto.
Qed.

Definition second_quarter_over : ESPNStatus :=
  {| clock := 0; displayClock := "0:00"; period := 2; state := "IN"; completed := false |}.

Lemma halftime_and_periods_witness :
  toGameStatus second_quarter_over = Game.HALFTIME /\
  toPeriod second_quarter_over = Some HALFTIME.
Proof.
  split; [reflexivity|].
  exact (proj1 (halftime_and_periods second_quarter_over) eq_refl).
Defined.

Lemma transformer_status_classes_witness :
  Game.isLiveStatus (toGameStatus second_quarter_over) = true.
Proof.
  apply (transformer_status_classes second_quarter_over). split; reflexivity.
Defined.

End TransformerMore.

(** ** Cache keys *)

Module CacheKeysMore.
Import Stdlib.Strings.Ascii.

(** A digit or a minus sign. *)
Definition numeric_char (c : Ascii.ascii) : bool :=
  match c with
  | "0" | "1" | "2" | "3" | "4" | "5" | "6" | "7" | "8" | "9" | "-" => true
  | _ => false
  end%char.

Fixpoint numeric (s : string) : bool :=
  match s with
  | EmptyString => true
  | String c s' => numeric_char c && numeric s'
  end.

Fixpoint no_colon (s : string) : bool :=
  match s with
  | EmptyString => true
  | String c s' => negb (Ascii.eqb c ":") && no_colon s'
  end.

Lemma numeric_char_not_colon c : numeric_char c = true -> Ascii.eqb c ":" = false.
Proof.
  destruct c as [[] [] [] [] [] [] [] []]; cbn; intros H;
    solve [reflexivity | discriminate H].
Qed.

Lemma numeric_no_colon s : numeric s = true -> no_colon s = true.
Proof.
  induction s as [|c s IH]; [reflexivity|]. cbn.
  intros H. apply andb_true_iff in H as [Hc Hs].
  rewrite (numeric_char_not_colon c Hc), (IH Hs). reflexivity.
Qed.

Lemma pretty_N_char_numeric x : numeric_char (pretty_N_char x) = true.
Proof. unfold pretty_N_char. repeat case_match; reflexivity. Qed.

Lemma pretty_N_go_numeric x : forall s, numeric s = true -> numeric (pretty_N_go x s) = true.
Proof.
  induction (N.lt_wf_0 x) as [x _ IH]; intros s Hs.
  destruct (decide (x = 0)%N) as [->|Hx].
  - rewrite pretty_N_go_0. exact Hs.
  - rewrite pretty_N_go_step by lia.
    apply IH; [apply N.div_lt; lia|].
    cbn. rewrite pretty_N_char_numeric. exact Hs.
Qed.

Lemma pretty_N_numeric (x : N) : numeric (pretty x) = true.
Proof.
  unfold pretty, pretty_N. destruct (decide (x = 0%N)); [reflexivity|].
  now apply pretty_N_go_numeric.
Qed.

Lemma pretty_Z_numeric (z : Z) : numeric (pretty z) = true.
Proof.
  unfold pretty, pretty_Z. destruct z as [|x|x].
  - reflexivity.
  - apply (pretty_N_numeric (N.pos x)).
  - cbn. apply (pretty_N_numeric (N.pos x)).
Qed.

(** A string is cut at its first colon in one way only. *)
Lemma split_at_colon a : forall a' b b',
  no_colon a = true -> no_colon a' = true ->
  a +:+ String ":" b = a' +:+ String ":" b' -> a = a' /\ b = b'.
Proof.
  induction a as [|c a IH]; intros [|c' a'] b b' Ha Ha' H; cbn in *.
  - injection H as ->. auto.
  - injection H as <- _. discriminate Ha'.
  - injection H as -> _. discriminate Ha.
  - injection H as -> H.
    apply andb_true_iff in Ha as [_ Ha]. apply andb_true_iff in Ha' as [_ Ha'].
    destruct (IH a' b b' Ha Ha' H) as [-> ->]. auto.
Qed.

Lemma or_regular_no_colon st : no_colon (Season.or_regular st) = true.
Proof. destruct st as [[| |]|]; reflexivity. Qed.

Lemma or_regular_inj st st' :
  Season.or_regular st = Season.or_regular st' ->
  default Season.regular st = default Season.regular st'.
Proof. destruct st as [[| |]|], st' as [[| |]|]; cbn; congruence. Qed.

(** X29 (one cache entry per query).  Two scoreboard requests have the
    same cache key exactly when they ask for the same season, the same
    week and the same season type (an absent type being regular); two
    schedule requests, exactly when they ask for the same season, the same
    season type and the same week (an absent week and week 0 both being
    the whole season). *)
Theorem cache_keys_identify_queries :
  (forall p p' : Scoreboard.GetScoreboardParams,
     Scoreboard.buildCacheKey p = Scoreboard.buildCacheKey p' <->
     Scoreboard.season p = Scoreboard.season p' /\
     Scoreboard.week p = Scoreboard.week p' /\
     default Season.regular (Scoreboard.seasonType p)
     = default Season.regular (Scoreboard.seasonType p')) /\
  (forall q q' : Schedule.GetScheduleParams,
     Schedule.buildCacheKey q = Schedule.buildCacheKey q' <->
     Schedule.season q = Schedule.season q' /\
     Schedule.truthy_week (Schedule.week q) = Schedule.truthy_week (Schedule.week q') /\
     default Season.regular (Schedule.seasonType q)
     = default Season.regular (Schedule.seasonType q')).
Proof.
  split.
  - intros p p'. split.
    + unfold Scoreboard.buildCacheKey. intros H. cbn in H.
      injection H as H.
      apply split_at_colon in H as [Hs H];
        [|apply numeric_no_colon, pretty_Z_numeric..].
      apply split_at_colon in H as [Ht Hw]; [|apply or_regular_no_colon..].
      apply (inj pretty) in Hs, Hw. apply or_regular_inj in Ht. auto.
    + intros (Hs & Hw & Ht). unfold Scoreboard.buildCacheKey, Season.or_regular.
      rewrite Hs, Hw, Ht. reflexivity.
  - intros q q'. split.
    + unfold Schedule.buildCacheKey. intros H. cbn in H.
      injection H as H.
      apply split_at_colon in H as [Hs H];
        [|apply numeric_no_colon, pretty_Z_numeric..].
      apply (inj pretty) in Hs. split; [exact Hs|].
      assert (Hw : forall w : option Z,
        match w with Some w => ":" +:+ pretty w | None => ":all" end
        = String ":" (match w with Some w => pretty w | None => "all" end))
        by (intros [w|]; reflexivity).
      rewrite !Hw in H.
      apply split_at_colon in H as [Ht H]; [|apply or_regular_no_colon..].
      apply or_regular_inj in Ht. split; [|exact Ht].
      destruct (Schedule.truthy_week (Schedule.week q)) as [w|],
               (Schedule.truthy_week (Schedule.week q')) as [w'|].
      * apply (inj pretty) in H. congruence.
      * pose proof (pretty_Z_numeric w) as Hn. rewrite H in Hn. discriminate Hn.
      * pose proof (pretty_Z_numeric w') as Hn. rewrite <- H in Hn. discriminate Hn.
      * reflexivity.
    + intros (Hs & Hw & Ht). unfold Schedule.buildCacheKey, Season.or_regular.
      rewrite Hs, Hw, Ht. reflexivity.
Qed.

(** X30 (the use cases never share a cache entry).  The keys of the four
    use cases are pairwise different, whatever the parameters; and
    different game ids have different keys. *)
Theorem cache_namespaces_disjoint
    (p : Scoreboard.GetScoreboardParams) (q : Schedule.GetScheduleParams)
    (id id' : string) :
  Scoreboard.buildCacheKey p <> Schedule.buildCacheKey q /\
  Scoreboard.buildCacheKey p <> LiveGames.CACHE_KEY /\
  Scoreboard.buildCacheKey p <> GameDetails.buildCacheKey id /\
  Schedule.buildCacheKey q <> LiveGames.CACHE_KEY /\
  Schedule.buildCacheKey q <> GameDetails.buildCacheKey id /\
  GameDetails.buildCacheKey id <> LiveGames.CACHE_KEY /\
  (GameDetails.buildCacheKey id = GameDetails.buildCacheKey id' -> id = id').
Proof.
  unfold Scoreboard.buildCacheKey, Schedule.buildCacheKey, GameDetails.buildCacheKey,
    LiveGames.CACHE_KEY.
  repeat split; cbn; try (intros H; discriminate H).
  intros H. now injection H.
Qed.

Lemma cache_keys_identify_queries_witness :
  Scoreboard.buildCacheKey
    {| Scoreboard.season := 2025; Scoreboard.week := 10; Scoreboard.seasonType := None |}
  = Scoreboard.buildCacheKey
      {| Scoreboard.season := 2025; Scoreboard.week := 10;
         Scoreboard.seasonType := Some Season.regular |}.
Proof.
  apply (proj1 cache_keys_identify_queries). repeat split.
Defined.

Lemma cache_namespaces_disjoint_witness :
  GameDetails.buildCacheKey "s:live" <> LiveGames.CACHE_KEY.
Proof.
  exact (proj1 (proj2 (proj2 (proj2 (proj2 (proj2
           (cache_namespaces_disjoint
              {| Scoreboard.season := 2025; Scoreboard.week := 1;
                 Scoreboard.seasonType := None |}
              {| Schedule.season := 2025; Schedule.week := None;
                 Schedule.seasonType := None |}
              "s:live" ""))))))).
Defined.

End CacheKeysMore.
